(** * websocket-trade-replayer: a shallow embedding of [server.py] and [client.py]

    The server replays a recorded table of trades over a websocket, one
    burst per distinct timestamp, paced by the distance of each timestamp
    from the first one.  The client reads the frames back and counts them.

    Conventions of the embedding:
    - a text frame is identified with the JSON document it carries
      ([json.dumps] on the way out, [json.loads] on the way in);
    - a [pd.Timestamp] is its count of nanoseconds, and [NaT] is [None];
    - a Python float is the number it stands for, written as an integer of
      one small common unit; what the floating-point unit and pandas
      compute from such numbers is not fixed here but taken from a
      [platform], with the laws the statements rely on;
    - the readings of the event loop's clock are scripted by the
      environment, sleeps included: [asyncio.sleep] only records what it was
      asked for;
    - the event loop is single threaded: a coroutine runs until it awaits
      something that is not ready, and only then another task may run. *)

From Stdlib Require Import String ZArith Bool Lia.
From Stdlib Require Import List Permutation Sorted.
Import ListNotations.
Open Scope Z_scope.

Set Warnings "-register-all".

(** ** JSON documents *)

Inductive json : Type :=
| JNull
| JBool (b : bool)
| JNum (n : Z)
| JStr (s : string)
| JArr (elems : list json)
| JObj (members : list (string * json)).

(** [data[key]] on a decoded object: [json.loads] fills a dict member by
    member, so a later binding of a key overwrites an earlier one. *)
Fixpoint dict_get (key : string) (members : list (string * json)) : option json :=
  match members with
  | [] => None
  | (k, v) :: rest =>
      match dict_get key rest with
      | Some v' => Some v'
      | None => if String.eqb key k then Some v else None
      end
  end.

(** [key in data] *)
Definition dict_has (key : string) (members : list (string * json)) : bool :=
  match dict_get key members with Some _ => true | None => false end.

(** [value == text] for a Python [str] literal [text]. *)
Definition json_eq_str (value : json) (text : string) : bool :=
  match value with
  | JStr s => String.eqb s text
  | _ => false
  end.

Definition status_message (text : string) : json := JObj [("status"%string, JStr text)].
Definition error_message (text : string) : json := JObj [("error"%string, JStr text)].

Definition DATA_LOADED : string := "Data loaded. Starting replay.".
Definition REPLAY_FINISHED : string := "Replay finished.".

(** ** Logging *)

Inductive level : Type := INFO | WARNING | ERROR.

(** One constructor per call to [logging] in the two programs; the
    arguments are the values interpolated into the message. *)
Inductive log_text : Type :=
| ProducerStarting
| ProducerCancelled
| ProducerFinished
| ClientConnected
| FileNotFoundAt (trade_file : string)
| ErrorReadingParquet
| NoTradesToReplay
| SentInitial (num_trades : nat) (timestamp : Z)
| SentLagging (num_trades : nat) (timestamp : Z) (lag : Z)
| SentAfterWait (num_trades : nat) (timestamp : Z) (delay : Z)
| ReplayFinishedLog
| AverageLatency (total : Z) (samples : nat)
| NoLatencyMeasurements
| ClientDisconnected
| ErrorDuringReplay (what : string)
| AlreadyDisconnected
| HandlerFinished
| ConnectedTo (uri : string)
| ServerStatus (value : json)
| ReceivedTrade (data : json)
| ReceivedSoFar (message_count : Z)
| ConnectionToServerClosed
| TotalTradesReceived (message_count : Z).

Definition log_record : Type := (level * log_text)%type.

(** ** The dataset *)

(** A row of the trades table: the value of its [timestamp] column after
    [pd.to_datetime], [None] for [NaT] (a missing timestamp), and the
    document [json.dumps(record, default=str)] yields for it. *)
Record row : Type := mk_row { timestamp : option Z; document : json }.

Definition DataFrame : Type := list row.

Definition has_timestamp (r : row) : bool :=
  match timestamp r with Some _ => true | None => false end.

(** What the handler takes from pandas and from the floating-point unit.
    - [sort_values]: [trades_df.sort_values(by="timestamp").reset_index(drop=True)].
      The order it gives to rows of equal timestamp is that of pandas'
      default sorting algorithm, which is not a stable one; all that is used
      of it is that it rearranges the rows it is given.
    - [total_seconds]: [timedelta.total_seconds()], from a difference of
      timestamps to a float.
    - [fadd], [fsub]: [+] and [-] on floats.  Subtraction rounds the exact
      difference, so it is monotone in its first operand and changes sign
      when its operands are exchanged. *)
Record platform : Type := mk_platform {
  sort_values : DataFrame -> DataFrame;
  sort_values_perm : forall df, Permutation (sort_values df) df;
  total_seconds : Z -> Z;
  fadd : Z -> Z -> Z;
  fsub : Z -> Z -> Z;
  fsub_monotone : forall a b c, a <= b -> fsub a c <= fsub b c;
  fsub_opp : forall a b, fsub b a = - fsub a b
}.

(** [trades_df.groupby("timestamp")]: the distinct keys in ascending order,
    each with its rows in the order of the frame.  A row whose timestamp is
    [NaT] goes to no group ([dropna=True] is the default). *)
Fixpoint add_to_group (key : Z) (r : row) (groups : list (Z * list row))
  : list (Z * list row) :=
  match groups with
  | [] => [(key, [r])]
  | (key', members) :: rest =>
      if key <? key' then (key, [r]) :: groups
      else if key =? key' then (key', members ++ [r]) :: rest
      else (key', members) :: add_to_group key r rest
  end.

Definition add_row (groups : list (Z * list row)) (r : row) : list (Z * list row) :=
  match timestamp r with
  | Some key => add_to_group key r groups
  | None => groups
  end.

Definition groupby_timestamp (df : DataFrame) : list (Z * list row) :=
  fold_left add_row df [].

(** A platform to compute with: a stable insertion sort that puts [NaT]
    last, and arithmetic without rounding. *)
Definition timestamp_leb (a b : row) : bool :=
  match timestamp a, timestamp b with
  | Some x, Some y => x <=? y
  | Some _, None => true
  | None, Some _ => false
  | None, None => true
  end.

Fixpoint insert_row (r : row) (sorted : DataFrame) : DataFrame :=
  match sorted with
  | [] => [r]
  | r' :: rest =>
      if timestamp_leb r r' then r :: sorted
      else r' :: insert_row r rest
  end.

Definition insertion_sort (df : DataFrame) : DataFrame :=
  fold_right insert_row [] df.

Lemma insert_row_perm (r : row) (df : DataFrame) :
  Permutation (insert_row r df) (r :: df).
Proof.
  induction df as [| r' rest IH]; simpl; [reflexivity |].
  destruct (timestamp_leb r r'); [reflexivity |].
  rewrite IH. apply perm_swap.
Qed.

Lemma insertion_sort_perm (df : DataFrame) : Permutation (insertion_sort df) df.
Proof.
  induction df as [| r rest IH]; simpl; [reflexivity |].
  rewrite insert_row_perm. constructor. exact IH.
Qed.

Lemma exact_sub_monotone (a b c : Z) : a <= b -> a - c <= b - c.
Proof. lia. Qed.

Lemma exact_sub_opp (a b : Z) : b - a = - (a - b).
Proof. lia. Qed.

Definition exact_platform : platform :=
  mk_platform insertion_sort insertion_sort_perm (fun ns => ns) Z.add Z.sub
    exact_sub_monotone exact_sub_opp.

(** ** The paced queue *)

(** An element of [TradeQueue]: [(timestamp, messages, len(group))]. *)
Definition tick : Type := (Z * list json * nat)%type.

(** [asyncio.Queue[tick | None]]. *)
Record Queue : Type := mk_queue { maxsize : Z; items : list (option tick) }.

Definition qsize (q : Queue) : Z := Z.of_nat (length (items q)).

Definition full (q : Queue) : bool :=
  if maxsize q <=? 0 then false else maxsize q <=? qsize q.

Definition empty (q : Queue) : bool :=
  match items q with [] => true | _ :: _ => false end.

Definition put_nowait (q : Queue) (x : option tick) : Queue :=
  mk_queue (maxsize q) (items q ++ [x]).

(** ** The producer task *)

(** Where the coroutine [produce_trades] stands between two steps of the
    event loop. *)
Inductive producer_pc : Type :=
| Created (trades_df : DataFrame)
| PuttingGroup (pending : list (Z * list row))
| PuttingNone
| Returned
| Cancelled.

(** The task: its place in the code, every item it has put on the queue so
    far, and what it has logged. *)
Record producer : Type := mk_producer {
  pc : producer_pc;
  emitted : list (option tick);
  producer_log : list log_record
}.

Definition tick_of_group (g : Z * list row) : tick :=
  (fst g, map document (snd g), length (snd g)).

(** The [finally] clause, line 33: [await queue.put(None)] suspends while
    the queue is full. *)
Definition produce_finally (p : producer) (q : Queue) : producer * Queue :=
  if full q then
    (mk_producer PuttingNone (emitted p) (producer_log p), q)
  else
    (mk_producer Returned (emitted p ++ [None])
       (producer_log p ++ [(INFO, ProducerFinished)]),
     put_nowait q None).

(** The [for] loop, lines 24-29, from the group it is about to put. *)
Fixpoint produce_loop (groups : list (Z * list row)) (p : producer) (q : Queue)
  : producer * Queue :=
  match groups with
  | [] => produce_finally p q
  | g :: rest =>
      if full q then
        (mk_producer (PuttingGroup groups) (emitted p) (producer_log p), q)
      else
        produce_loop rest
          (mk_producer (pc p) (emitted p ++ [Some (tick_of_group g)]) (producer_log p))
          (put_nowait q (Some (tick_of_group g)))
  end.

(** One step of the task: the event loop resumes the coroutine, which runs
    to its next suspension or to its end. *)
Definition resume (p : producer) (q : Queue) : producer * Queue :=
  match pc p with
  | Created trades_df =>
      produce_loop (groupby_timestamp trades_df)
        (mk_producer (pc p) (emitted p) (producer_log p ++ [(INFO, ProducerStarting)])) q
  | PuttingGroup groups => produce_loop groups p q
  | PuttingNone => produce_finally p q
  | Returned | Cancelled => (p, q)
  end.

(** [task.cancel()] followed by the step that throws [CancelledError] into
    the coroutine at the [await] it is suspended on. *)
Definition cancel (p : producer) (q : Queue) : producer * Queue :=
  match pc p with
  | Created _ => (mk_producer Cancelled (emitted p) (producer_log p), q)
  | PuttingGroup _ =>
      produce_finally
        (mk_producer (pc p) (emitted p) (producer_log p ++ [(INFO, ProducerCancelled)])) q
  | PuttingNone => (mk_producer Cancelled (emitted p) (producer_log p), q)
  | Returned | Cancelled => (p, q)
  end.

(** ** The connection handler's world *)

Inductive exn : Type :=
| ConnectionClosed
| Failure (what : string).

(** How an awaited computation ends: with a value, with an exception, or
    never (it stays suspended). *)
Inductive outcome (A : Type) : Type :=
| Done (a : A)
| Raised (e : exn)
| Pending.

Arguments Done {A} a.
Arguments Raised {A} e.
Arguments Pending {A}.

(** What lines 45-55 make of the file: [pd.read_parquet] raises
    [FileNotFoundError], or another exception, or it returns a frame; on a
    frame, [pd.to_datetime(trades_df["timestamp"])] raises an exception
    whose text is [what] (no such column, values that are no dates), or it
    leaves the rows of [df]. *)
Inductive parquet : Type :=
| FileNotFound
| Unreadable
| Unusable (what : string)
| Table (df : DataFrame).

(** Everything one call of [replay_trades] can touch.
    - [sent]: the frames handed to the transport, oldest first;
    - [peer]: how many more frames the consumer takes before the connection
      is closed ([None]: it stays open);
    - [now], [lapses]: the last reading of the event loop's clock and the
      time that goes by before each of its next readings, whatever the
      handler does in between;
    - [readings], [sleeps]: the results of [loop.time()] and the arguments
      of [asyncio.sleep] so far;
    - [queue], [producer_task], [latencies]: the locals of the handler. *)
Record session : Type := mk_session {
  sent : list json;
  peer : option nat;
  now : Z;
  lapses : list Z;
  readings : list Z;
  sleeps : list Z;
  queue : Queue;
  producer_task : option producer;
  log : list log_record;
  latencies : list Z
}.

Definition connect (peer : option nat) (now : Z) (lapses : list Z) : session :=
  mk_session [] peer now lapses [] [] (mk_queue 0 []) None [] [].

Definition M (A : Type) : Type := session -> outcome A * session.

Definition ret {A : Type} (a : A) : M A := fun s => (Done a, s).

Definition bind {A B : Type} (c : M A) (k : A -> M B) : M B :=
  fun s =>
    match c s with
    | (Done a, s') => k a s'
    | (Raised e, s') => (Raised e, s')
    | (Pending, s') => (Pending, s')
    end.

Declare Scope replay_scope.
Delimit Scope replay_scope with replay.
Notation "x <- c ;; k" := (bind c (fun x => k))
  (at level 61, c at next level, right associativity) : replay_scope.
Notation "c ;; k" := (bind c (fun _ => k))
  (at level 61, right associativity) : replay_scope.
Open Scope replay_scope.

Definition set_channel (s : session) (q : Queue) (p : option producer) : session :=
  mk_session (sent s) (peer s) (now s) (lapses s) (readings s) (sleeps s)
    q p (log s) (latencies s).

(** The handler is suspended: the producer task, if it can go on, does. *)
Definition run_ready (s : session) : session :=
  match producer_task s with
  | None => s
  | Some p => let (p', q') := resume p (queue s) in set_channel s q' (Some p')
  end.

Definition logging (lvl : level) (text : log_text) : M unit :=
  fun s =>
    (Done tt,
     mk_session (sent s) (peer s) (now s) (lapses s) (readings s) (sleeps s)
       (queue s) (producer_task s) (log s ++ [(lvl, text)]) (latencies s)).

Definition transmit (s : session) (m : json) (peer' : option nat) : session :=
  mk_session (sent s ++ [m]) peer' (now s) (lapses s) (readings s) (sleeps s)
    (queue s) (producer_task s) (log s) (latencies s).

(** [await websocket.send(m)] *)
Definition websocket_send (m : json) : M unit :=
  fun s =>
    match peer s with
    | Some O => (Raised ConnectionClosed, s)
    | Some (S k) => (Done tt, run_ready (transmit s m (Some k)))
    | None => (Done tt, run_ready (transmit s m None))
    end.

(** The tasks [asyncio.gather] makes of [websocket.send(m) for m in
    messages], run in the order of the list. *)
Fixpoint send_tasks (messages : list json) : M unit :=
  match messages with
  | [] => ret tt
  | m :: rest => websocket_send m ;; send_tasks rest
  end.

(** [await asyncio.gather] over these sends.  With no message the future
    is done at once.  Otherwise the handler is suspended before any of its
    send tasks has run, and a producer that was woken earlier runs first. *)
Definition gather_send (messages : list json) : M unit :=
  match messages with
  | [] => ret tt
  | _ :: _ => fun s => send_tasks messages (run_ready s)
  end.

(** [await queue.get()]: suspends while the queue is empty. *)
Definition queue_get : M (option tick) :=
  fun s =>
    let s1 := if empty (queue s) then run_ready s else s in
    match items (queue s1) with
    | [] => (Pending, s1)
    | item :: rest =>
        (Done item, set_channel s1 (mk_queue (maxsize (queue s1)) rest) (producer_task s1))
    end.

(** [asyncio.get_event_loop().time()] *)
Definition loop_time : M Z :=
  fun s =>
    let t := now s + hd 0 (lapses s) in
    (Done t,
     mk_session (sent s) (peer s) t (tl (lapses s)) (readings s ++ [t]) (sleeps s)
       (queue s) (producer_task s) (log s) (latencies s)).

(** [await asyncio.sleep(delay)]: when the handler runs again is for the
    clock's next reading to tell. *)
Definition asyncio_sleep (delay : Z) : M unit :=
  fun s =>
    (Done tt,
     run_ready
       (mk_session (sent s) (peer s) (now s) (lapses s) (readings s)
          (sleeps s ++ [delay]) (queue s) (producer_task s) (log s) (latencies s))).

(** [latencies.append(x)] *)
Definition latencies_append (x : Z) : M unit :=
  fun s =>
    (Done tt,
     mk_session (sent s) (peer s) (now s) (lapses s) (readings s) (sleeps s)
       (queue s) (producer_task s) (log s) (latencies s ++ [x])).

(** Lines 58-59: a fresh queue and the producer task on it. *)
Definition create_producer (max_queue_size : Z) (trades_df : DataFrame) : M unit :=
  fun s =>
    (Done tt,
     set_channel s (mk_queue max_queue_size [])
       (Some (mk_producer (Created trades_df) [] []))).

(** ** [replay_trades] *)

Section Platform.

Variable py : platform.

(** The body of the [while True] loop for one dequeued group, lines 83-105. *)
Definition pace_group (replay_start_time first_timestamp : Z) (item : tick) : M unit :=
  let '(timestamp, messages, num_trades) := item in
  let time_since_start := total_seconds py (timestamp - first_timestamp) in
  let target_send_time := fadd py replay_start_time time_since_start in
  current_time <- loop_time ;;
  let delay := fsub py target_send_time current_time in
  (if 0 <? delay then asyncio_sleep delay else ret tt) ;;
  actual_send_time <- loop_time ;;
  latencies_append (fsub py actual_send_time target_send_time) ;;
  gather_send messages ;;
  if delay <? 0 then logging WARNING (SentLagging num_trades timestamp (- delay))
  else logging INFO (SentAfterWait num_trades timestamp delay).

(** The [while True] loop, lines 78-105; [fuel] bounds its iterations. *)
Fixpoint pace_loop (fuel : nat) (replay_start_time first_timestamp : Z) : M unit :=
  match fuel with
  | O => fun s => (Pending, s)
  | S fuel' =>
      item <- queue_get ;;
      match item with
      | None => ret tt
      | Some group =>
          pace_group replay_start_time first_timestamp group ;;
          pace_loop fuel' replay_start_time first_timestamp
      end
  end.

(** Lines 109-113; the line logged carries [sum(latencies)] and
    [len(latencies)]. *)
Definition report_latency : M unit :=
  fun s =>
    match latencies s with
    | [] => logging INFO NoLatencyMeasurements s
    | _ :: _ =>
        logging INFO (AverageLatency (fold_left (fadd py) (latencies s) 0)
                        (length (latencies s))) s
    end.

(** The outer [try] block, lines 44-113.  The loop runs once per group
    after the first and once for the marker, so the number of rows bounds
    its iterations.  An exception of line 55 is raised before the producer
    task is made. *)
Definition replay_body (disk : string -> parquet) (trade_file : string)
    (max_queue_size : Z) : M unit :=
  match disk trade_file with
  | FileNotFound =>
      logging ERROR (FileNotFoundAt trade_file) ;;
      websocket_send (error_message ("File not found: " ++ trade_file))
  | Unreadable =>
      logging ERROR ErrorReadingParquet ;;
      websocket_send (error_message "Could not read trade data.")
  | Unusable what => fun s => (Raised (Failure what), s)
  | Table df =>
      let trades_df := sort_values py df in
      create_producer max_queue_size trades_df ;;
      websocket_send (status_message DATA_LOADED) ;;
      first_item <- queue_get ;;
      match first_item with
      | None =>
          logging INFO NoTradesToReplay ;;
          websocket_send (status_message REPLAY_FINISHED)
      | Some (first_timestamp, first_messages, num_trades) =>
          replay_start_time <- loop_time ;;
          gather_send first_messages ;;
          logging INFO (SentInitial num_trades first_timestamp) ;;
          pace_loop (S (length trades_df)) replay_start_time first_timestamp ;;
          logging INFO ReplayFinishedLog ;;
          websocket_send (status_message REPLAY_FINISHED) ;;
          report_latency
      end
  end.

(** The [except] clauses, lines 115-126. *)
Definition except_clauses (body : M unit) : M unit :=
  fun s =>
    match body s with
    | (Raised ConnectionClosed, s1) => logging INFO ClientDisconnected s1
    | (Raised (Failure what), s1) =>
        match
          (logging ERROR (ErrorDuringReplay what) ;;
           websocket_send
             (error_message ("An unexpected error occurred: " ++ what))) s1
        with
        | (Raised ConnectionClosed, s2) => logging WARNING AlreadyDisconnected s2
        | r => r
        end
    | r => r
    end.

(** The [finally] clause, lines 127-130. *)
Definition finally_clause (body : M unit) : M unit :=
  fun s =>
    let (r, s1) := body s in
    let s2 :=
      match producer_task s1 with
      | Some p => let (p', q') := cancel p (queue s1) in set_channel s1 q' (Some p')
      | None => s1
      end in
    (r, snd (logging INFO HandlerFinished s2)).

Definition replay_trades (disk : string -> parquet) (trade_file : string)
    (max_queue_size : Z) : M unit :=
  logging INFO ClientConnected ;;
  finally_clause (except_clauses (replay_body disk trade_file max_queue_size)).

(** ** The consumer client, [client.py] *)

(** How the body of the read loop leaves one message. *)
Inductive verdict : Type :=
| Continue
| Break
| ZeroDivision.

(** Why [listen_to_trades] stopped reading: the [break] of line 25, the
    [ConnectionClosed] raised by [recv], or the [ZeroDivisionError] of
    [message_count % summary_interval]. *)
Inductive client_exit : Type :=
| Finished
| Closed
| Crashed.

(** The locals of [listen_to_trades], with the frames [recv] has returned
    so far. *)
Record client : Type := mk_client {
  message_count : Z;
  received : list json;
  client_log : list log_record
}.

(** The [else] branch, lines 27-30. *)
Definition on_trade (show_first_n summary_interval count : Z) (data : json)
  : list log_record * verdict :=
  if count <=? show_first_n then ([(INFO, ReceivedTrade data)], Continue)
  else if summary_interval =? 0 then ([], ZeroDivision)
  else if count mod summary_interval =? 0 then ([(INFO, ReceivedSoFar count)], Continue)
  else ([], Continue).

(** [isinstance(data, dict) and "status" in data] *)
Definition has_status (data : json) : bool :=
  match data with
  | JObj members => dict_has "status" members
  | _ => false
  end.

(** [data["status"]], read only when [has_status data] holds. *)
Definition status_of (data : json) : json :=
  match data with
  | JObj members =>
      match dict_get "status" members with Some v => v | None => JNull end
  | _ => JNull
  end.

(** Lines 21-30 for one decoded message; [count] is [message_count] after
    the increment of line 20. *)
Definition on_message (show_first_n summary_interval count : Z) (data : json)
  : list log_record * verdict :=
  if has_status data then
    ([(INFO, ServerStatus (status_of data))],
     if json_eq_str (status_of data) REPLAY_FINISHED then Break else Continue)
  else on_trade show_first_n summary_interval count data.

(** The [while True] loop, lines 18-30, over the frames that arrive before
    the connection is closed, each of them a JSON document. *)
Fixpoint read_loop (show_first_n summary_interval : Z) (inbound : list json)
    (c : client) : client_exit * client :=
  match inbound with
  | [] => (Closed, c)
  | data :: rest =>
      let count := message_count c + 1 in
      let (lines, v) := on_message show_first_n summary_interval count data in
      let c' := mk_client count (received c ++ [data]) (client_log c ++ lines) in
      match v with
      | Continue => read_loop show_first_n summary_interval rest c'
      | Break => (Finished, c')
      | ZeroDivision => (Crashed, c')
      end
  end.

Definition listen_to_trades (uri : string) (show_first_n summary_interval : Z)
    (inbound : list json) : client_exit * client :=
  let c0 := mk_client 0 [] [(INFO, ConnectedTo uri)] in
  let (why, c1) := read_loop show_first_n summary_interval inbound c0 in
  let c2 :=
    match why with
    | Closed =>
        mk_client (message_count c1) (received c1)
          (client_log c1 ++ [(INFO, ConnectionToServerClosed)])
    | _ => c1
    end in
  (why,
   mk_client (message_count c2) (received c2)
     (client_log c2 ++ [(INFO, TotalTradesReceived (message_count c2))])).

(** ** Runs of the producer against its environment *)

(** What the rest of the program can do to the producer task between two
    of its steps: let it run, take an item off the queue, cancel it. *)
Inductive event : Type :=
| Resume
| Get
| Cancel.

Definition step (e : event) (st : producer * Queue) : producer * Queue :=
  match e with
  | Resume => resume (fst st) (snd st)
  | Get => (fst st, mk_queue (maxsize (snd st)) (tl (items (snd st))))
  | Cancel => cancel (fst st) (snd st)
  end.

Definition run (events : list event) (st : producer * Queue) : producer * Queue :=
  fold_left (fun st e => step e st) events st.

(** [asyncio.create_task(produce_trades(queue, trades_df))] on a fresh queue. *)
Definition spawn (trades_df : DataFrame) (max_queue_size : Z) : producer * Queue :=
  (mk_producer (Created trades_df) [] [], mk_queue max_queue_size []).

Definition is_cancel (e : event) : bool :=
  match e with Cancel => true | _ => false end.

(** The groups among the items put on the queue, and the markers. *)
Fixpoint ticks_of (l : list (option tick)) : list tick :=
  match l with
  | [] => []
  | Some t :: rest => t :: ticks_of rest
  | None :: rest => ticks_of rest
  end.

Fixpoint markers (l : list (option tick)) : nat :=
  match l with
  | [] => O
  | Some _ :: rest => markers rest
  | None :: rest => S (markers rest)
  end.

Definition tick_timestamp (t : tick) : Z := fst (fst t).
Definition tick_messages (t : tick) : list json := snd (fst t).
Definition tick_count (t : tick) : nat := snd t.

Definition total_count (ts : list tick) : nat :=
  fold_right (fun t n => (tick_count t + n)%nat) O ts.

Definition keys (groups : list (Z * list row)) : list Z := map fst groups.
Definition rows_of (groups : list (Z * list row)) : list row := concat (map snd groups).

(** Every row of a group carries the group's key. *)
Definition same_timestamp (g : Z * list row) : Prop :=
  Forall (fun r => timestamp r = Some (fst g)) (snd g).

(** Everything an undisturbed producer puts on the queue. *)
Definition full_output (trades_df : DataFrame) : list (option tick) :=
  map (fun g => Some (tick_of_group g)) (groupby_timestamp trades_df) ++ [None].

(** What the producer has still to put, if nobody cancels it. *)
Definition future (p : producer) : list (option tick) :=
  match pc p with
  | Created trades_df => full_output trades_df
  | PuttingGroup groups => map (fun g => Some (tick_of_group g)) groups ++ [None]
  | PuttingNone => [None]
  | Returned | Cancelled => []
  end.

(** ** Vocabulary of the statements *)

(** The number of markers a task in state [p] has put. *)
Definition marker_of_pc (c : producer_pc) : nat :=
  match c with Returned => 1%nat | _ => 0%nat end.

Definition marker_inv (p : producer) : Prop :=
  markers (emitted p) = marker_of_pc (pc p).

(** Without a cancellation the output so far and the output to come
    always make up the full output. *)
Definition undisturbed (trades_df : DataFrame) (p : producer) : Prop :=
  pc p <> Cancelled /\ emitted p ++ future p = full_output trades_df.

(** The frame is the protocol's end marker: an object whose [status] is the
    text "Replay finished.". *)
Definition is_replay_finished (data : json) : bool :=
  has_status data && json_eq_str (status_of data) REPLAY_FINISHED.


Definition status_line (data : json) : log_record :=
  (INFO, ServerStatus (status_of data)).

(** The part of the session the producer task cannot touch. *)
Definition handler_view (s : session)
  : list json * option nat * Z * list Z * list Z * list Z * list log_record * list Z :=
  (sent s, peer s, now s, lapses s, readings s, sleeps s, log s, latencies s).

(** The part of it no send can touch. *)
Definition clock_view (s : session)
  : Z * list Z * list Z * list Z * list log_record * list Z :=
  (now s, lapses s, readings s, sleeps s, log s, latencies s).

(** The state of the channel between the two tasks: an undisturbed
    producer, [backlog] the items the handler has still to dequeue, and
    [output] everything the producer puts in its whole life. *)
Definition channel (s : session) (backlog output : list (option tick)) : Prop :=
  exists p,
    producer_task s = Some p /\
    pc p <> Cancelled /\
    items (queue s) ++ future p = backlog /\
    emitted p ++ future p = output.

Definition keeps_channel (s s' : session) : Prop :=
  forall backlog output, channel s backlog output -> channel s' backlog output.

(** The log line of lines 98-105. *)
Definition sent_line (num_trades : nat) (timestamp delay : Z) : log_record :=
  if delay <? 0 then (WARNING, SentLagging num_trades timestamp (- delay))
  else (INFO, SentAfterWait num_trades timestamp delay).

(** The connection takes at least [n] more frames. *)
Definition accepts (n : nat) (peer : option nat) : Prop :=
  match peer with
  | None => True
  | Some k => (n <= k)%nat
  end.

(** The text of the error frame for a file that cannot be loaded. *)
Definition load_error_text (outcome_of_read : parquet) (trade_file : string) : string :=
  match outcome_of_read with
  | FileNotFound => "File not found: " ++ trade_file
  | Unusable what => "An unexpected error occurred: " ++ what
  | _ => "Could not read trade data."
  end.

(** A task that is past its loop: it can only put the marker or be over. *)
Definition closing (c : producer_pc) : bool :=
  match c with
  | Created _ | PuttingGroup _ => false
  | PuttingNone | Returned | Cancelled => true
  end.

(** The producer's place in its output: what it has put, followed by what
    its loop has still to put, is the output of [groupby]. *)
Definition on_course (trades_df : DataFrame) (p : producer) : Prop :=
  let all := map tick_of_group (groupby_timestamp trades_df) in
  match pc p with
  | Created d => d = trades_df /\ emitted p = []
  | PuttingGroup groups => ticks_of (emitted p) ++ map tick_of_group groups = all
  | PuttingNone | Returned | Cancelled => exists rest, ticks_of (emitted p) ++ rest = all
  end.

(** The kinds of lines in the client's log. *)
Definition is_trade_line (line : log_record) : bool :=
  match snd line with ReceivedTrade _ => true | _ => false end.

Definition is_status_line (line : log_record) : bool :=
  match snd line with ServerStatus _ => true | _ => false end.

(** A running summary is in its place: past the first-N window, at a
    multiple of the interval, and not beyond the count so far. *)
Definition summary_in_place (show_first_n summary_interval count : Z)
    (line : log_record) : Prop :=
  match snd line with
  | ReceivedSoFar k =>
      show_first_n < k /\ k <= count /\ summary_interval <> 0 /\
      k mod summary_interval = 0
  | _ => True
  end.

(** Of the frames handed to the connection one after the other, those a
    peer that takes [peer] more frames receives; and what the peer takes
    after [n] frames. *)
Definition delivered (peer : option nat) (frames : list json) : list json :=
  match peer with
  | None => frames
  | Some k => firstn k frames
  end.

Definition after (peer : option nat) (n : nat) : option nat :=
  match peer with
  | None => None
  | Some k => Some (k - n)%nat
  end.

(** A computation of the handler puts [frames] on the wire: either it
    ends normally, all of them sent, in a state that satisfies [post], or
    the peer closes the connection part of the way and it raises
    [ConnectionClosed] with the frames the peer still took sent. *)
Definition emits {A : Type} (frames : list json) (post : A -> session -> Prop)
    (s : session) (res : outcome A * session) : Prop :=
  (exists a,
      fst res = Done a /\
      sent (snd res) = sent s ++ frames /\
      peer (snd res) = after (peer s) (length frames) /\
      accepts (length frames) (peer s) /\
      post a (snd res))
  \/
  (fst res = Raised ConnectionClosed /\
   exists k,
     peer s = Some k /\ (k < length frames)%nat /\
     sent (snd res) = sent s ++ firstn k frames).

(** The frames of a whole session, by what reading the file gave. *)
Definition expected_frames (outcome_of_read : parquet) (trade_file : string)
  : list json :=
  match outcome_of_read with
  | Table df =>
      [status_message DATA_LOADED]
      ++ concat (map (fun g => map document (snd g))
                   (groupby_timestamp (sort_values py df)))
      ++ [status_message REPLAY_FINISHED]
  | _ => [error_message (load_error_text outcome_of_read trade_file)]
  end.

(** The schedule of the groups after the first: for each of them, from
    the clock reading taken before the sleep and the one taken after it,
    the delay and the latency that lines 85-94 prescribe. *)
Fixpoint pacing (replay_start_time first_timestamp : Z) (ticks : list tick)
    (clock : list Z) : list (Z * Z) :=
  match ticks, clock with
  | t :: ticks', current_time :: actual_send_time :: clock' =>
      let target_send_time :=
        fadd py replay_start_time
          (total_seconds py (tick_timestamp t - first_timestamp)) in
      (fsub py target_send_time current_time,
       fsub py actual_send_time target_send_time)
      :: pacing replay_start_time first_timestamp ticks' clock'
  | _, _ => []
  end.

(** From [s] to [s'] the handler has paced [ticks]: it has read the clock
    twice for each of them, slept for the delays that are positive, and
    recorded the latencies. *)
Definition paced_by (replay_start_time first_timestamp : Z) (ticks : list tick)
    (s s' : session) : Prop :=
  exists clock,
    length clock = (2 * length ticks)%nat /\
    readings s' = readings s ++ clock /\
    sleeps s'
    = sleeps s
      ++ filter (fun delay => 0 <? delay)
           (map fst (pacing replay_start_time first_timestamp ticks clock)) /\
    latencies s'
    = latencies s
      ++ map snd (pacing replay_start_time first_timestamp ticks clock).

(** The timing of a whole replay of [groups]: the clock is read once when
    the first group has been dequeued, and that reading and the first
    timestamp are the origin of the schedule of the others. *)
Definition replay_timing (groups : list (Z * list row)) (s s' : session) : Prop :=
  match groups with
  | [] =>
      readings s' = readings s /\ sleeps s' = sleeps s /\ latencies s' = latencies s
  | g :: later =>
      exists replay_start_time s1,
        replay_start_time = now s + hd 0 (lapses s) /\
        readings s1 = readings s ++ [replay_start_time] /\
        sleeps s1 = sleeps s /\
        latencies s1 = latencies s /\
        paced_by replay_start_time (fst g) (map tick_of_group later) s1 s'
  end.

(** The producer's log says "Finished processing trades" exactly when the
    task has returned. *)
Definition finished_logged (p : producer) : Prop :=
  (pc p = Returned /\ In (INFO, ProducerFinished) (producer_log p))
  \/ (pc p <> Returned /\ ~ In (INFO, ProducerFinished) (producer_log p)).

(** Rows in the order of their timestamps. *)
Definition by_timestamp (a b : row) : Prop :=
  exists x y, timestamp a = Some x /\ timestamp b = Some y /\ x <= y.

(** * Properties of the grouping *)

Section Grouping.

Lemma add_to_group_rows (key : Z) (r : row) (groups : list (Z * list row)) :
  Permutation (rows_of (add_to_group key r groups)) (r :: rows_of groups).
Proof.
  unfold rows_of.
  induction groups as [| [key' members] rest IH]; simpl.
  - reflexivity.
  - destruct (key <? key'); [reflexivity |].
    destruct (key =? key'); simpl.
    + rewrite <- app_assoc. simpl. symmetry. apply Permutation_middle.
    + rewrite IH. symmetry. apply Permutation_middle.
Qed.

Lemma add_to_group_keys (P : Z -> Prop) (key : Z) (r : row) (groups : list (Z * list row)) :
  P key -> Forall P (keys groups) -> Forall P (keys (add_to_group key r groups)).
Proof.
  intros Hr. unfold keys.
  induction groups as [| [key' members] rest IH]; simpl; intros H.
  - constructor; [exact Hr | constructor].
  - inversion H; subst.
    destruct (key <? key'); [constructor; assumption |].
    destruct (key =? key'); simpl; constructor; auto.
Qed.

Lemma add_to_group_sorted (key : Z) (r : row) (groups : list (Z * list row)) :
  StronglySorted Z.lt (keys groups) ->
  StronglySorted Z.lt (keys (add_to_group key r groups)).
Proof.
  induction groups as [| [key' members] rest IH]; simpl; intros H.
  - repeat constructor.
  - inversion H as [| k ks Hks Hall]; subst.
    destruct (key <? key') eqn:Hlt.
    + apply Z.ltb_lt in Hlt. simpl. constructor; [exact H |].
      constructor; [exact Hlt |].
      eapply Forall_impl; [| exact Hall]. simpl. intros; lia.
    + apply Z.ltb_ge in Hlt.
      destruct (key =? key') eqn:Heq; simpl.
      * exact H.
      * apply Z.eqb_neq in Heq. constructor; [apply IH; exact Hks |].
        apply add_to_group_keys; [lia | exact Hall].
Qed.

Lemma add_to_group_same (key : Z) (r : row) (groups : list (Z * list row)) :
  timestamp r = Some key ->
  Forall same_timestamp groups -> Forall same_timestamp (add_to_group key r groups).
Proof.
  intros Hr.
  induction groups as [| [key' members] rest IH]; simpl; intros H.
  - repeat constructor. exact Hr.
  - inversion H as [| g gs Hg Hgs]; subst.
    destruct (key <? key').
    + constructor; [repeat constructor; exact Hr | exact H].
    + destruct (key =? key') eqn:Heq.
      * apply Z.eqb_eq in Heq. subst key'. constructor; [| exact Hgs].
        unfold same_timestamp in *. simpl in *.
        apply Forall_app. split; [exact Hg | repeat constructor; exact Hr].
      * constructor; [exact Hg | apply IH; exact Hgs].
Qed.

(** The invariant of the fold that builds the groups. *)
Lemma groupby_fold (df : DataFrame) :
  forall acc,
    StronglySorted Z.lt (keys acc) ->
    Forall same_timestamp acc ->
    let groups := fold_left add_row df acc in
    StronglySorted Z.lt (keys groups) /\
    Forall same_timestamp groups /\
    Permutation (rows_of groups) (rows_of acc ++ filter has_timestamp df).
Proof.
  induction df as [| r df IH]; simpl; intros acc Hs Hf.
  - rewrite app_nil_r. auto.
  - unfold add_row at 2 4 6, has_timestamp.
    destruct (timestamp r) as [key |] eqn:Hr.
    + destruct (IH (add_to_group key r acc)) as (H1 & H2 & H3).
      * apply add_to_group_sorted; exact Hs.
      * apply add_to_group_same; [exact Hr | exact Hf].
      * split; [exact H1 |]. split; [exact H2 |].
        rewrite H3. rewrite add_to_group_rows. simpl.
        apply Permutation_middle.
    + apply IH; assumption.
Qed.

Lemma groupby_keys_increasing (df : DataFrame) :
  StronglySorted Z.lt (keys (groupby_timestamp df)).
Proof.
  apply (groupby_fold df []); constructor.
Qed.

Lemma groupby_same_timestamp (df : DataFrame) :
  Forall same_timestamp (groupby_timestamp df).
Proof.
  apply (groupby_fold df []); constructor.
Qed.

(** The groups hold the rows that have a timestamp, each once. *)
Lemma groupby_partition (df : DataFrame) :
  Permutation (rows_of (groupby_timestamp df)) (filter has_timestamp df).
Proof.
  apply (groupby_fold df []); constructor.
Qed.

Lemma filter_has_timestamp (df : DataFrame) :
  Forall (fun r => timestamp r <> None) df -> filter has_timestamp df = df.
Proof.
  induction 1 as [| r rest Hr _ IH]; simpl; [reflexivity |].
  unfold has_timestamp at 1. destruct (timestamp r); [| congruence].
  rewrite IH. reflexivity.
Qed.

Lemma total_count_groups (groups : list (Z * list row)) :
  total_count (map tick_of_group groups) = length (rows_of groups).
Proof.
  unfold rows_of.
  induction groups as [| g rest IH]; simpl; [reflexivity |].
  rewrite length_app, IH. reflexivity.
Qed.

Lemma increasing_nondecreasing (l : list Z) :
  StronglySorted Z.lt l -> StronglySorted Z.le l.
Proof.
  induction 1 as [| k ks Hks IH Hall]; constructor; [exact IH |].
  eapply Forall_impl; [| exact Hall]. simpl. intros; lia.
Qed.

Lemma ticks_of_groups (groups : list (Z * list row)) (tail : list (option tick)) :
  ticks_of (map (fun g => Some (tick_of_group g)) groups ++ tail)
  = map tick_of_group groups ++ ticks_of tail.
Proof.
  induction groups as [| g rest IH]; simpl; [reflexivity |].
  rewrite IH. reflexivity.
Qed.

End Grouping.

(** * Properties of the producer task *)

Section ProducerSteps.

Lemma markers_app (l1 l2 : list (option tick)) :
  markers (l1 ++ l2) = (markers l1 + markers l2)%nat.
Proof.
  induction l1 as [| [t |] rest IH]; simpl; [reflexivity | exact IH |].
  rewrite IH. reflexivity.
Qed.

Lemma produce_finally_markers (p : producer) (q : Queue) :
  markers (emitted p) = 0%nat -> marker_inv (fst (produce_finally p q)).
Proof.
  intros H. unfold produce_finally, marker_inv.
  destruct (full q); simpl; [exact H |].
  rewrite markers_app, H. reflexivity.
Qed.

Lemma produce_loop_markers (groups : list (Z * list row)) :
  forall p q, markers (emitted p) = 0%nat -> marker_inv (fst (produce_loop groups p q)).
Proof.
  induction groups as [| g rest IH]; simpl; intros p q H.
  - apply produce_finally_markers; exact H.
  - destruct (full q); [exact H |].
    apply IH. simpl. rewrite markers_app, H. reflexivity.
Qed.

Lemma step_markers (e : event) (st : producer * Queue) :
  marker_inv (fst st) -> marker_inv (fst (step e st)).
Proof.
  destruct st as [p q]. unfold marker_inv at 1. simpl. intros H.
  destruct e; simpl.
  - unfold resume. destruct (pc p) eqn:Hpc; simpl in H;
      try (simpl; unfold marker_inv; rewrite Hpc; exact H).
    + apply produce_loop_markers; exact H.
    + apply produce_loop_markers; exact H.
    + apply produce_finally_markers; exact H.
  - exact H.
  - unfold cancel. destruct (pc p) eqn:Hpc; simpl in H;
      try (unfold marker_inv; simpl; try rewrite Hpc; exact H).
    apply produce_finally_markers; exact H.
Qed.

Lemma run_markers (events : list event) :
  forall st, marker_inv (fst st) -> marker_inv (fst (run events st)).
Proof.
  induction events as [| e rest IH]; simpl; intros st H; [exact H |].
  apply IH. apply step_markers. exact H.
Qed.

(** The queue is a FIFO: what it holds followed by what the producer has
    still to put does not change when the producer runs. *)
Lemma produce_finally_backlog (p : producer) (q : Queue) :
  let st := produce_finally p q in
  maxsize (snd st) = maxsize q /\
  items (snd st) ++ future (fst st) = items q ++ [None] /\
  emitted (fst st) ++ future (fst st) = emitted p ++ [None].
Proof.
  unfold produce_finally. destruct (full q); simpl; unfold future; simpl.
  - auto.
  - rewrite !app_nil_r. auto.
Qed.

Lemma produce_loop_backlog (groups : list (Z * list row)) :
  forall p q,
    let st := produce_loop groups p q in
    let rest := map (fun g => Some (tick_of_group g)) groups ++ [None] in
    maxsize (snd st) = maxsize q /\
    items (snd st) ++ future (fst st) = items q ++ rest /\
    emitted (fst st) ++ future (fst st) = emitted p ++ rest.
Proof.
  induction groups as [| g gs IH]; intros p q.
  - apply produce_finally_backlog.
  - simpl. destruct (full q).
    + simpl. unfold future. simpl. auto.
    + specialize (IH (mk_producer (pc p) (emitted p ++ [Some (tick_of_group g)])
                        (producer_log p))
                     (put_nowait q (Some (tick_of_group g)))).
      simpl in IH. rewrite <- !app_assoc in IH. exact IH.
Qed.

Lemma resume_backlog (p : producer) (q : Queue) :
  let st := resume p q in
  maxsize (snd st) = maxsize q /\
  items (snd st) ++ future (fst st) = items q ++ future p /\
  emitted (fst st) ++ future (fst st) = emitted p ++ future p.
Proof.
  pose proof (eq_refl (future p)) as Hf. unfold future at 2 in Hf.
  unfold resume. destruct (pc p) eqn:Hpc; cbv zeta; rewrite Hf.
  - apply (produce_loop_backlog (groupby_timestamp trades_df)
             (mk_producer (Created trades_df) (emitted p)
                (producer_log p ++ [(INFO, ProducerStarting)])) q).
  - apply produce_loop_backlog.
  - apply produce_finally_backlog.
  - simpl. unfold future. rewrite Hpc. auto.
  - simpl. unfold future. rewrite Hpc. auto.
Qed.

Lemma empty_not_full (q : Queue) : items q = [] -> full q = false.
Proof.
  intros Hq. unfold full, qsize. rewrite Hq. simpl.
  destruct (maxsize q <=? 0); reflexivity.
Qed.

Lemma full_put (q : Queue) (x : option tick) :
  items (put_nowait q x) <> [].
Proof.
  unfold put_nowait. simpl. destruct (items q); discriminate.
Qed.

(** A producer that has something left puts at least one item on an
    empty queue. *)
Lemma produce_finally_progress (p : producer) (q : Queue) :
  items q = [] -> items (snd (produce_finally p q)) <> [].
Proof.
  intros Hq. unfold produce_finally.
  rewrite (empty_not_full q Hq). apply full_put.
Qed.

Lemma produce_finally_keeps (p : producer) (q : Queue) :
  items q <> [] -> items (snd (produce_finally p q)) <> [].
Proof.
  intros Hq. unfold produce_finally. destruct (full q); simpl; [exact Hq |].
  destruct (items q); [congruence | discriminate].
Qed.

Lemma produce_loop_keeps (groups : list (Z * list row)) :
  forall p q, items q <> [] -> items (snd (produce_loop groups p q)) <> [].
Proof.
  induction groups as [| g gs IH]; simpl; intros p q Hq.
  - apply produce_finally_keeps; exact Hq.
  - destruct (full q); simpl; [exact Hq |].
    apply IH. apply full_put.
Qed.

Lemma produce_loop_progress (groups : list (Z * list row)) (p : producer) (q : Queue) :
  items q = [] -> items (snd (produce_loop groups p q)) <> [].
Proof.
  destruct groups as [| g gs]; simpl; intros Hq.
  - apply produce_finally_progress; exact Hq.
  - rewrite (empty_not_full q Hq). apply produce_loop_keeps, full_put.
Qed.

Lemma resume_progress (p : producer) (q : Queue) :
  items q = [] -> future p <> [] -> items (snd (resume p q)) <> [].
Proof.
  intros Hq Hf. unfold resume. unfold future in Hf.
  destruct (pc p); try congruence.
  - apply produce_loop_progress; exact Hq.
  - apply produce_loop_progress; exact Hq.
  - apply produce_finally_progress; exact Hq.
Qed.

Lemma produce_finally_pc (p : producer) (q : Queue) :
  pc (fst (produce_finally p q)) <> Cancelled.
Proof.
  unfold produce_finally. destruct (full q); simpl; discriminate.
Qed.

Lemma produce_loop_pc (groups : list (Z * list row)) :
  forall p q, pc (fst (produce_loop groups p q)) <> Cancelled.
Proof.
  induction groups as [| g gs IH]; simpl; intros p q.
  - apply produce_finally_pc.
  - destruct (full q); simpl; [discriminate | apply IH].
Qed.

Lemma resume_pc (p : producer) (q : Queue) :
  pc p <> Cancelled -> pc (fst (resume p q)) <> Cancelled.
Proof.
  intros H. unfold resume. destruct (pc p) eqn:Hpc; simpl; try congruence.
  - apply produce_loop_pc.
  - apply produce_loop_pc.
  - apply produce_finally_pc.
Qed.

Lemma run_undisturbed (trades_df : DataFrame) (events : list event) :
  forall st,
    forallb (fun e => negb (is_cancel e)) events = true ->
    undisturbed trades_df (fst st) ->
    undisturbed trades_df (fst (run events st)).
Proof.
  induction events as [| e rest IH]; simpl; intros [p q] Hev Hinv; [exact Hinv |].
  apply andb_prop in Hev. destruct Hev as [He Hrest].
  apply IH; [exact Hrest |].
  destruct Hinv as [Hpc Hout].
  destruct e; simpl in *; try discriminate.
  - split; [apply resume_pc; exact Hpc |].
    destruct (resume_backlog p q) as (_ & _ & H). rewrite H. exact Hout.
  - split; assumption.
Qed.

End ProducerSteps.

(** * The producer's output *)

Lemma messages_of_groups (groups : list (Z * list row)) :
  concat (map tick_messages (map tick_of_group groups)) = map document (rows_of groups).
Proof.
  unfold rows_of.
  induction groups as [| g rest IH]; simpl; [reflexivity |].
  rewrite map_app, IH. reflexivity.
Qed.

Lemma timestamps_of_groups (groups : list (Z * list row)) :
  map tick_timestamp (map tick_of_group groups) = keys groups.
Proof.
  unfold keys. rewrite map_map. reflexivity.
Qed.

(** When a producer that nobody cancels has returned, the groups it has
    put on the queue are those of [groupby]; they hold the rows that have a
    timestamp, each once, and their [count] fields add up to the number of
    these rows. *)
Lemma produce_trades_output
    (trades_df : DataFrame) (max_queue_size : Z) (events : list event) :
  forallb (fun e => negb (is_cancel e)) events = true ->
  pc (fst (run events (spawn trades_df max_queue_size))) = Returned ->
  let out := ticks_of (emitted (fst (run events (spawn trades_df max_queue_size)))) in
  let groups := groupby_timestamp trades_df in
  out = map tick_of_group groups /\
  total_count out = length (filter has_timestamp trades_df) /\
  Permutation (rows_of groups) (filter has_timestamp trades_df) /\
  Permutation (concat (map tick_messages out))
    (map document (filter has_timestamp trades_df)).
Proof.
  intros Hev Hret out groups.
  assert (Hout : out = map tick_of_group groups).
  { destruct (run_undisturbed trades_df events (spawn trades_df max_queue_size) Hev)
      as [_ Hfull].
    - split; [discriminate | reflexivity].
    - unfold out. unfold future in Hfull. rewrite Hret, app_nil_r in Hfull.
      rewrite Hfull. unfold full_output. rewrite ticks_of_groups.
      simpl. apply app_nil_r. }
  rewrite Hout. split; [reflexivity |].
  split.
  { rewrite total_count_groups.
    apply Permutation_length, groupby_partition. }
  split; [apply groupby_partition |].
  rewrite messages_of_groups. apply Permutation_map, groupby_partition.
Qed.

(** C3, amended.  For a frame whose rows all have a timestamp: when a
    producer that nobody cancels has returned, the groups it has put on the
    queue are those of [groupby]; their [count] fields add up to the number
    of rows of the frame; the rows of the groups, and so the messages, are a
    rearrangement of those of the frame (no row is lost and none is
    doubled); all the rows of a group carry the group's timestamp; and the
    timestamps of successive groups do not decrease. *)
Theorem produce_trades_grouping
    (trades_df : DataFrame) (max_queue_size : Z) (events : list event) :
  Forall (fun r => timestamp r <> None) trades_df ->
  forallb (fun e => negb (is_cancel e)) events = true ->
  pc (fst (run events (spawn trades_df max_queue_size))) = Returned ->
  let out := ticks_of (emitted (fst (run events (spawn trades_df max_queue_size)))) in
  let groups := groupby_timestamp trades_df in
  out = map tick_of_group groups /\
  total_count out = length trades_df /\
  Permutation (rows_of groups) trades_df /\
  Permutation (concat (map tick_messages out)) (map document trades_df) /\
  Forall same_timestamp groups /\
  StronglySorted Z.le (map tick_timestamp out).
Proof.
  intros Hall Hev Hret out groups.
  destruct (produce_trades_output trades_df max_queue_size events Hev Hret)
    as (Hout & Hcount & Hrows & Hmsgs).
  rewrite (filter_has_timestamp trades_df Hall) in Hcount, Hrows, Hmsgs.
  split; [exact Hout |].
  split; [exact Hcount |].
  split; [exact Hrows |].
  split; [exact Hmsgs |].
  split; [apply groupby_same_timestamp |].
  fold out in Hout. rewrite Hout.
  rewrite timestamps_of_groups.
  apply increasing_nondecreasing, groupby_keys_increasing.
Qed.

(** C3, as stated, fails on a frame with a row whose timestamp is missing:
    of three rows the producer emits two, in one group, and returns; the
    third row is in no group. *)
Lemma null_timestamp_row_is_dropped :
  let df := [mk_row (Some 10) (JStr "A"); mk_row None (JStr "N");
             mk_row (Some 10) (JStr "B")] in
  let p := fst (run [Resume] (spawn df 0)) in
  pc p = Returned /\
  length df = 3%nat /\
  total_count (ticks_of (emitted p)) = 2%nat /\
  concat (map tick_messages (ticks_of (emitted p))) = [JStr "A"; JStr "B"].
Proof.
  repeat split; reflexivity.
Qed.

(** The timestamps of the groups are in fact pairwise distinct. *)
Lemma produce_trades_keys_distinct (trades_df : DataFrame) :
  StronglySorted Z.lt (map tick_timestamp (ticks_of (full_output trades_df))).
Proof.
  unfold full_output. rewrite ticks_of_groups. simpl. rewrite app_nil_r.
  rewrite timestamps_of_groups. apply groupby_keys_increasing.
Qed.

Lemma produce_trades_grouping_witness :
  let df := [mk_row (Some 12) (JStr "C"); mk_row (Some 10) (JStr "A");
             mk_row (Some 10) (JStr "B")] in
  let events := [Resume; Get; Resume; Get; Resume] in
  total_count (ticks_of (emitted (fst (run events (spawn df 1))))) = 3%nat.
Proof.
  intros df events.
  refine (proj1 (proj2 (produce_trades_grouping df 1 events _ _ _)));
    [repeat constructor; discriminate | reflexivity | reflexivity].
Defined.

(** ** Markers and cancellation *)

(** A task never puts a second marker, whatever happens to it, and it has
    put one exactly when it has returned. *)
Lemma producer_markers (trades_df : DataFrame) (max_queue_size : Z) (events : list event) :
  let p := fst (run events (spawn trades_df max_queue_size)) in
  markers (emitted p) = marker_of_pc (pc p).
Proof.
  apply (run_markers events (spawn trades_df max_queue_size)). reflexivity.
Qed.

(** Cancelling a task that is over changes nothing and raises nothing. *)
Lemma cancel_after_completion (p : producer) (q : Queue) :
  pc p = Returned \/ pc p = Cancelled -> cancel p q = (p, q).
Proof.
  intros [H | H]; unfold cancel; rewrite H; reflexivity.
Qed.

(** C2, on the code.  Two groups on a queue of capacity one: the producer
    puts the first, waits, puts the second when the first has been taken,
    and waits on [queue.put(None)].  A cancellation at that point ends the
    task with no marker on the queue.  With three groups the cancellation
    finds the task in the loop; it then waits on [queue.put(None)] for
    ever, again with no marker, however often it is resumed. *)
Theorem cancelled_producer_puts_no_marker :
  let a := mk_row (Some 10) (JStr "A") in
  let c := mk_row (Some 12) (JStr "C") in
  let d := mk_row (Some 15) (JStr "D") in
  let short := fst (run [Resume; Get; Resume; Cancel] (spawn [a; c] 1)) in
  (pc short = Cancelled /\ markers (emitted short) = 0%nat) /\
  forall n : nat,
    let long := fst (run ([Resume; Get; Resume; Cancel] ++ repeat Resume n)
                       (spawn [a; c; d] 1)) in
    pc long = PuttingNone /\ markers (emitted long) = 0%nat.
Proof.
  intros a c d short. split; [split; reflexivity |].
  intros n. unfold run. rewrite fold_left_app.
  set (st := fold_left _ [Resume; Get; Resume; Cancel] _).
  assert (Hst : pc (fst st) = PuttingNone /\ markers (emitted (fst st)) = 0%nat /\
                full (snd st) = true) by (repeat split; reflexivity).
  clearbody st. revert st Hst.
  induction n as [| n IH]; intros [p q] (Hpc & Hm & Hfull); simpl.
  - split; assumption.
  - apply IH. simpl in *. unfold resume, produce_finally.
    rewrite Hpc, Hfull. simpl. auto.
Qed.

(** * Properties of the consumer client *)

Section ReadLoop.

Variables show_first_n summary_interval : Z.




Hypothesis interval_nonzero : summary_interval <> 0.



End ReadLoop.


Lemma listen_exit (uri : string) (n m : Z) (inbound : list json) :
  let res := read_loop n m inbound (mk_client 0 [] [(INFO, ConnectedTo uri)]) in
  fst (listen_to_trades uri n m inbound) = fst res /\
  message_count (snd (listen_to_trades uri n m inbound)) = message_count (snd res).
Proof.
  unfold listen_to_trades.
  destruct (read_loop n m inbound (mk_client 0 [] [(INFO, ConnectedTo uri)])) as [why c].
  destruct why; simpl; auto.
Qed.




(** ** What the client counts *)





(** ** Error frames *)

(** A frame without a [status] member takes the branch of the data
    records, whatever else it carries. *)
Lemma on_message_without_status (n m count : Z) (data : json) :
  has_status data = false -> on_message n m count data = on_trade n m count data.
Proof.
  intros H. unfold on_message. rewrite H. reflexivity.
Qed.


(** * Properties of the connection handler *)

Section HandlerSteps.

Lemma view_fields (s : session) a b c d e f g h :
  handler_view s = (a, b, c, d, e, f, g, h) ->
  sent s = a /\ peer s = b /\ now s = c /\ lapses s = d /\
  readings s = e /\ sleeps s = f /\ log s = g /\ latencies s = h.
Proof.
  unfold handler_view. intros H. inversion H. repeat split.
Qed.

Lemma run_ready_view (s : session) : handler_view (run_ready s) = handler_view s.
Proof.
  unfold run_ready. destruct (producer_task s) as [p |]; [| reflexivity].
  destruct (resume p (queue s)). reflexivity.
Qed.

Lemma run_ready_channel (s : session) (backlog output : list (option tick)) :
  channel s backlog output -> channel (run_ready s) backlog output.
Proof.
  intros (p & Hp & Hpc & Hb & Ho). unfold run_ready. rewrite Hp.
  pose proof (resume_backlog p (queue s)) as (_ & Hb' & Ho').
  pose proof (resume_pc p (queue s) Hpc) as Hpc'.
  destruct (resume p (queue s)) as [p' q']. simpl in *.
  exists p'. repeat split; simpl; [exact Hpc' | congruence | congruence].
Qed.

Lemma channel_ext (s s' : session) (backlog output : list (option tick)) :
  queue s' = queue s -> producer_task s' = producer_task s ->
  channel s backlog output -> channel s' backlog output.
Proof.
  intros Hq Hp (p & H1 & H2 & H3 & H4).
  exists p. rewrite Hq, Hp. auto.
Qed.

(** Dequeuing delivers the head of the backlog. *)
Lemma queue_get_channel (s : session) (item : option tick)
    (backlog output : list (option tick)) :
  channel s (item :: backlog) output ->
  exists s',
    queue_get s = (Done item, s') /\
    handler_view s' = handler_view s /\
    channel s' backlog output.
Proof.
  intros Hch. unfold queue_get.
  set (s1 := if empty (queue s) then run_ready s else s).
  assert (Hv : handler_view s1 = handler_view s).
  { unfold s1. destruct (empty (queue s)); [apply run_ready_view | reflexivity]. }
  assert (Hch1 : channel s1 (item :: backlog) output).
  { unfold s1. destruct (empty (queue s)); [apply run_ready_channel |]; exact Hch. }
  assert (Hne : items (queue s1) <> []).
  { unfold s1, empty. destruct (items (queue s)) eqn:Hq; [| rewrite Hq; discriminate].
    destruct Hch as (p & Hp & _ & Hb & _). rewrite Hq in Hb. simpl in Hb.
    unfold run_ready. rewrite Hp.
    pose proof (resume_progress p (queue s) Hq) as Hprog.
    destruct (resume p (queue s)) as [p' q']. simpl in *.
    apply Hprog. rewrite Hb. discriminate. }
  destruct Hch1 as (p1 & Hp1 & Hpc1 & Hb1 & Ho1).
  destruct (items (queue s1)) as [| x rest] eqn:Hq1; [congruence |].
  simpl in Hb1. inversion Hb1; subst x.
  eexists. split; [reflexivity |].
  split; [rewrite <- Hv; reflexivity |].
  exists p1. simpl. auto.
Qed.

(** On a connection that stays open a send succeeds. *)
Lemma websocket_send_open (m : json) (s : session) :
  peer s = None ->
  exists s',
    websocket_send m s = (Done tt, s') /\
    handler_view s'
    = (sent s ++ [m], None, now s, lapses s, readings s, sleeps s, log s, latencies s) /\
    (forall backlog output, channel s backlog output -> channel s' backlog output).
Proof.
  intros Hpeer. unfold websocket_send. rewrite Hpeer.
  eexists. split; [reflexivity |]. split.
  - rewrite run_ready_view. reflexivity.
  - intros backlog output Hch. apply run_ready_channel.
    eapply channel_ext; [| | exact Hch]; reflexivity.
Qed.

Lemma send_tasks_open (messages : list json) :
  forall s : session,
    peer s = None ->
    exists s',
      send_tasks messages s = (Done tt, s') /\
      handler_view s'
      = (sent s ++ messages, None, now s, lapses s, readings s, sleeps s, log s,
         latencies s) /\
      (forall backlog output, channel s backlog output -> channel s' backlog output).
Proof.
  induction messages as [| m rest IH]; intros s Hpeer.
  - exists s. simpl. unfold ret, handler_view. rewrite app_nil_r, Hpeer. auto.
  - destruct (websocket_send_open m s Hpeer) as (s1 & Hsend & Hv1 & Hch1).
    destruct (view_fields _ _ _ _ _ _ _ _ _ Hv1)
      as (Es & Ep & En & El & Er & Esl & Elog & Elat).
    destruct (IH s1 Ep) as (s2 & Hrest & Hv2 & Hch2).
    exists s2. cbn [send_tasks]. unfold bind. rewrite Hsend, Hrest.
    split; [reflexivity |]. split; [| auto].
    rewrite Hv2, Es, En, El, Er, Esl, Elog, Elat, <- app_assoc. reflexivity.
Qed.

Lemma gather_send_open (messages : list json) (s : session) :
  peer s = None ->
  exists s',
    gather_send messages s = (Done tt, s') /\
    handler_view s'
    = (sent s ++ messages, None, now s, lapses s, readings s, sleeps s, log s,
       latencies s) /\
    (forall backlog output, channel s backlog output -> channel s' backlog output).
Proof.
  intros Hpeer. destruct messages as [| m rest].
  - exact (send_tasks_open [] s Hpeer).
  - pose proof (run_ready_view s) as Hv.
    destruct (view_fields _ _ _ _ _ _ _ _ _ Hv)
      as (Es & Ep & En & El & Er & Esl & Elog & Elat).
    destruct (send_tasks_open (m :: rest) (run_ready s)) as (s' & Hrun & Hv' & Hch').
    { rewrite Ep. exact Hpeer. }
    exists s'. split; [exact Hrun |]. split.
    + rewrite Hv', Es, En, El, Er, Esl, Elog, Elat. reflexivity.
    + intros backlog output Hch. apply Hch', run_ready_channel, Hch.
Qed.

Lemma run_ready_clock (s : session) : clock_view (run_ready s) = clock_view s.
Proof.
  unfold run_ready. destruct (producer_task s) as [p |]; [| reflexivity].
  destruct (resume p (queue s)). reflexivity.
Qed.

Lemma websocket_send_any (m : json) (s : session) :
  let res := websocket_send m s in
  (fst res = Done tt \/ fst res = Raised ConnectionClosed) /\
  clock_view (snd res) = clock_view s.
Proof.
  unfold websocket_send.
  destruct (peer s) as [[| k] |]; simpl; (split; [auto |]);
    try reflexivity; rewrite run_ready_clock; reflexivity.
Qed.

(** Whatever the peer does, a burst of sends leaves the clock, the log
    and the samples alone, and can only fail with [ConnectionClosed]. *)
Lemma send_tasks_any (messages : list json) :
  forall s : session,
    let res := send_tasks messages s in
    (fst res = Done tt \/ fst res = Raised ConnectionClosed) /\
    clock_view (snd res) = clock_view s.
Proof.
  induction messages as [| m rest IH]; intros s; simpl.
  - auto.
  - unfold bind.
    destruct (websocket_send_any m s) as [H1 H2].
    destruct (websocket_send m s) as [r s1]. simpl in H1, H2.
    destruct H1; subst r.
    + destruct (IH s1) as [H3 H4]. rewrite <- H2. auto.
    + simpl. auto.
Qed.

Lemma gather_send_any (messages : list json) (s : session) :
  let res := gather_send messages s in
  (fst res = Done tt \/ fst res = Raised ConnectionClosed) /\
  clock_view (snd res) = clock_view s.
Proof.
  destruct messages as [| m rest].
  - exact (send_tasks_any [] s).
  - unfold gather_send.
    destruct (send_tasks_any (m :: rest) (run_ready s)) as [H1 H2].
    split; [exact H1 |]. rewrite H2. apply run_ready_clock.
Qed.

End HandlerSteps.

(** ** One step of the handler at a time *)

Section Primitives.

Lemma clock_fields (s : session) a b c d e f :
  clock_view s = (a, b, c, d, e, f) ->
  now s = a /\ lapses s = b /\ readings s = c /\ sleeps s = d /\
  log s = e /\ latencies s = f.
Proof.
  unfold clock_view. intros H. inversion H. repeat split.
Qed.

Lemma keeps_channel_trans (s1 s2 s3 : session) :
  keeps_channel s1 s2 -> keeps_channel s2 s3 -> keeps_channel s1 s3.
Proof.
  unfold keeps_channel. auto.
Qed.

Lemma loop_time_spec (s : session) :
  exists s',
    loop_time s = (Done (now s + hd 0 (lapses s)), s') /\
    handler_view s'
    = (sent s, peer s, now s + hd 0 (lapses s), tl (lapses s),
       readings s ++ [now s + hd 0 (lapses s)], sleeps s, log s, latencies s) /\
    keeps_channel s s'.
Proof.
  eexists. split; [reflexivity |]. split; [reflexivity |].
  intros backlog output H. eapply channel_ext; [| | exact H]; reflexivity.
Qed.

Lemma asyncio_sleep_spec (delay : Z) (s : session) :
  exists s',
    asyncio_sleep delay s = (Done tt, s') /\
    handler_view s'
    = (sent s, peer s, now s, lapses s, readings s, sleeps s ++ [delay],
       log s, latencies s) /\
    keeps_channel s s'.
Proof.
  eexists. split; [reflexivity |]. split; [rewrite run_ready_view; reflexivity |].
  intros backlog output H. apply run_ready_channel.
  eapply channel_ext; [| | exact H]; reflexivity.
Qed.

Lemma latencies_append_spec (x : Z) (s : session) :
  exists s',
    latencies_append x s = (Done tt, s') /\
    handler_view s'
    = (sent s, peer s, now s, lapses s, readings s, sleeps s, log s,
       latencies s ++ [x]) /\
    keeps_channel s s'.
Proof.
  eexists. split; [reflexivity |]. split; [reflexivity |].
  intros backlog output H. eapply channel_ext; [| | exact H]; reflexivity.
Qed.

Lemma logging_spec (lvl : level) (text : log_text) (s : session) :
  exists s',
    logging lvl text s = (Done tt, s') /\
    handler_view s'
    = (sent s, peer s, now s, lapses s, readings s, sleeps s,
       log s ++ [(lvl, text)], latencies s) /\
    keeps_channel s s'.
Proof.
  eexists. split; [reflexivity |]. split; [reflexivity |].
  intros backlog output H. eapply channel_ext; [| | exact H]; reflexivity.
Qed.

(** The optional sleep of lines 90-91. *)
Lemma maybe_sleep_spec (delay : Z) (s : session) :
  exists s',
    (if 0 <? delay then asyncio_sleep delay else ret tt) s = (Done tt, s') /\
    handler_view s'
    = (sent s, peer s, now s, lapses s,
       readings s, sleeps s ++ (if 0 <? delay then [delay] else []),
       log s, latencies s) /\
    keeps_channel s s'.
Proof.
  destruct (0 <? delay).
  - apply asyncio_sleep_spec.
  - exists s. unfold ret, handler_view. rewrite app_nil_r.
    repeat split. intros backlog output H. exact H.
Qed.

(** The loop body up to the sample, lines 83-94: two readings of the
    clock with the optional sleep between them. *)
Lemma pace_group_prefix (replay_start_time first_timestamp timestamp : Z)
    (s : session) :
  let target_send_time :=
    fadd py replay_start_time (total_seconds py (timestamp - first_timestamp)) in
  let current_time := now s + hd 0 (lapses s) in
  let delay := fsub py target_send_time current_time in
  let actual_send_time := current_time + hd 0 (tl (lapses s)) in
  exists s',
    (current_time' <- loop_time ;;
     (if 0 <? fsub py target_send_time current_time'
      then asyncio_sleep (fsub py target_send_time current_time') else ret tt) ;;
     actual_send_time' <- loop_time ;;
     latencies_append (fsub py actual_send_time' target_send_time) ;;
     ret (fsub py target_send_time current_time')) s
    = (Done delay, s') /\
    handler_view s'
    = (sent s, peer s, actual_send_time, tl (tl (lapses s)),
       readings s ++ [current_time; actual_send_time],
       sleeps s ++ (if 0 <? delay then [delay] else []),
       log s, latencies s ++ [fsub py actual_send_time target_send_time]) /\
    keeps_channel s s'.
Proof.
  intros target_send_time current_time delay actual_send_time.
  subst actual_send_time delay current_time.
  destruct (loop_time_spec s) as (s1 & E1 & V1 & C1).
  destruct (maybe_sleep_spec (fsub py target_send_time (now s + hd 0 (lapses s))) s1)
    as (s2 & E2 & V2 & C2).
  destruct (loop_time_spec s2) as (s3 & E3 & V3 & C3).
  destruct (latencies_append_spec
              (fsub py (now s2 + hd 0 (lapses s2)) target_send_time) s3)
    as (s4 & E4 & V4 & C4).
  exists s4. split; [| split].
  - unfold bind. rewrite E1, E2, E3, E4.
    destruct (view_fields _ _ _ _ _ _ _ _ _ V1) as (_ & _ & N1 & L1 & _).
    destruct (view_fields _ _ _ _ _ _ _ _ _ V2) as (_ & _ & N2 & L2 & _).
    reflexivity.
  - destruct (view_fields _ _ _ _ _ _ _ _ _ V1) as (A1 & B1 & N1 & L1 & R1 & S1 & G1 & T1).
    destruct (view_fields _ _ _ _ _ _ _ _ _ V2) as (A2 & B2 & N2 & L2 & R2 & S2 & G2 & T2).
    destruct (view_fields _ _ _ _ _ _ _ _ _ V3) as (A3 & B3 & N3 & L3 & R3 & S3 & G3 & T3).
    rewrite V4, A3, B3, N3, L3, R3, S3, G3, T3.
    rewrite A2, B2, N2, L2, R2, S2, G2, T2.
    rewrite A1, B1, N1, L1, R1, S1, G1, T1.
    rewrite <- app_assoc. reflexivity.
  - unfold keeps_channel in *. auto.
Qed.

End Primitives.

(** ** Pacing one group *)

Lemma pace_group_split (replay_start_time first_timestamp timestamp : Z)
    (messages : list json) (num_trades : nat) (s : session) :
  let target_send_time :=
    fadd py replay_start_time (total_seconds py (timestamp - first_timestamp)) in
  pace_group replay_start_time first_timestamp (timestamp, messages, num_trades) s
  = (delay <-
       (current_time <- loop_time ;;
        (if 0 <? fsub py target_send_time current_time
         then asyncio_sleep (fsub py target_send_time current_time) else ret tt) ;;
        actual_send_time <- loop_time ;;
        latencies_append (fsub py actual_send_time target_send_time) ;;
        ret (fsub py target_send_time current_time)) ;;
     gather_send messages ;;
     fun s' => logging (fst (sent_line num_trades timestamp delay))
                 (snd (sent_line num_trades timestamp delay)) s') s.
Proof.
  unfold pace_group, bind, sent_line. simpl.
  destruct (0 <? _); simpl;
    destruct (gather_send messages _) as [[[] | e |] s1];
    try reflexivity; destruct (_ <? 0); reflexivity.
Qed.

(** What one turn of the loop does to the session, whatever the peer does. *)
Lemma pace_group_run (replay_start_time first_timestamp timestamp : Z)
    (messages : list json) (num_trades : nat) (s : session) :
  let target_send_time :=
    fadd py replay_start_time (total_seconds py (timestamp - first_timestamp)) in
  let current_time := now s + hd 0 (lapses s) in
  let delay := fsub py target_send_time current_time in
  let actual_send_time := current_time + hd 0 (tl (lapses s)) in
  let res :=
    pace_group replay_start_time first_timestamp (timestamp, messages, num_trades) s in
  readings (snd res) = readings s ++ [current_time; actual_send_time] /\
  sleeps (snd res) = sleeps s ++ (if 0 <? delay then [delay] else []) /\
  latencies (snd res) = latencies s ++ [fsub py actual_send_time target_send_time] /\
  ((fst res = Done tt /\
    log (snd res) = log s ++ [sent_line num_trades timestamp delay]) \/
   (fst res = Raised ConnectionClosed /\ log (snd res) = log s)).
Proof.
  intros target_send_time current_time delay actual_send_time res.
  assert (Hres : res = _) by (unfold res; apply pace_group_split).
  fold target_send_time in Hres.
  destruct (pace_group_prefix replay_start_time first_timestamp timestamp s)
    as (s1 & E1 & V1 & _).
  fold target_send_time current_time delay actual_send_time in E1, V1.
  unfold bind at 1 in Hres. rewrite E1 in Hres. unfold bind at 1 in Hres.
  destruct (gather_send_any messages s1) as [Hr Hc].
  destruct (gather_send messages s1) as [r s2]. simpl in Hr, Hc.
  destruct (view_fields _ _ _ _ _ _ _ _ _ V1) as (_ & _ & N1 & L1 & R1 & S1 & G1 & T1).
  apply clock_fields in Hc. destruct Hc as (N2 & L2 & R2 & S2 & G2 & T2).
  clearbody res. subst res.
  destruct Hr; subst r.
  - destruct (sent_line num_trades timestamp delay) as [lvl text]. simpl.
    rewrite R2, S2, T2, G2, R1, S1, T1, G1. auto 6.
  - simpl. rewrite R2, S2, T2, G2, R1, S1, T1, G1. auto 6.
Qed.

(** C4, amended.  When the group has been sent, the handler logs one line
    for it: a warning that it lags by [- delay] exactly when [delay] is
    strictly negative, and otherwise the info line that it waited for
    [delay], a delay of zero included.  When the connection was closed
    during the send it logs no line for the group. *)
Theorem pace_group_log_level (replay_start_time first_timestamp timestamp : Z)
    (messages : list json) (num_trades : nat) (s : session) :
  let target_send_time :=
    fadd py replay_start_time (total_seconds py (timestamp - first_timestamp)) in
  let delay := fsub py target_send_time (now s + hd 0 (lapses s)) in
  let res :=
    pace_group replay_start_time first_timestamp (timestamp, messages, num_trades) s in
  (fst res = Done tt ->
   exists line,
     log (snd res) = log s ++ [line] /\
     (fst line = WARNING <-> delay < 0) /\
     (delay < 0 -> line = (WARNING, SentLagging num_trades timestamp (- delay))) /\
     (0 <= delay -> line = (INFO, SentAfterWait num_trades timestamp delay))) /\
  (fst res <> Done tt -> log (snd res) = log s).
Proof.
  intros target_send_time delay res.
  destruct (pace_group_run replay_start_time first_timestamp timestamp messages
              num_trades s) as (_ & _ & _ & Hlog).
  fold target_send_time delay res in Hlog.
  split.
  - intros Hdone. destruct Hlog as [[_ Hlog] | [Hr _]]; [| congruence].
    exists (sent_line num_trades timestamp delay). split; [exact Hlog |].
    unfold sent_line. destruct (delay <? 0) eqn:Hd.
    + apply Z.ltb_lt in Hd. simpl. repeat split; auto. lia.
    + apply Z.ltb_ge in Hd. simpl. repeat split; auto; try lia. discriminate.
  - intros Hnot. destruct Hlog as [[Hr _] | [_ Hlog]]; [contradiction | exact Hlog].
Qed.

(** ** A whole replay on a connection that stays open *)

Lemma add_to_group_length (key : Z) (r : row) (groups : list (Z * list row)) :
  (length (add_to_group key r groups) <= S (length groups))%nat.
Proof.
  induction groups as [| [key' members] rest IH]; simpl; [lia |].
  destruct (key <? key'); simpl; [lia |].
  destruct (key =? key'); simpl; lia.
Qed.

Lemma add_row_length (groups : list (Z * list row)) (r : row) :
  (length (add_row groups r) <= S (length groups))%nat.
Proof.
  unfold add_row. destruct (timestamp r) as [key |]; [| lia].
  apply add_to_group_length.
Qed.

Lemma groupby_length (df : DataFrame) :
  (length (groupby_timestamp df) <= length df)%nat.
Proof.
  unfold groupby_timestamp.
  assert (H : forall acc,
             (length (fold_left add_row df acc) <= length acc + length df)%nat).
  { induction df as [| r df IH]; intros acc; simpl; [lia |].
    specialize (IH (add_row acc r)).
    pose proof (add_row_length acc r). lia. }
  apply (H []).
Qed.

Lemma paced_by_one (replay_start_time first_timestamp timestamp : Z)
    (messages : list json) (num_trades : nat) (s s' : session) :
  let target_send_time :=
    fadd py replay_start_time (total_seconds py (timestamp - first_timestamp)) in
  let current_time := now s + hd 0 (lapses s) in
  let delay := fsub py target_send_time current_time in
  let actual_send_time := current_time + hd 0 (tl (lapses s)) in
  readings s' = readings s ++ [current_time; actual_send_time] ->
  sleeps s' = sleeps s ++ (if 0 <? delay then [delay] else []) ->
  latencies s' = latencies s ++ [fsub py actual_send_time target_send_time] ->
  paced_by replay_start_time first_timestamp [(timestamp, messages, num_trades)] s s'.
Proof.
  intros target_send_time current_time delay actual_send_time Hr Hs Hl.
  exists [current_time; actual_send_time].
  split; [reflexivity |]. split; [exact Hr |].
  simpl. unfold tick_timestamp. simpl.
  fold target_send_time. fold delay.
  split; [| exact Hl].
  rewrite Hs. destruct (0 <? delay); reflexivity.
Qed.

Lemma paced_by_nil (replay_start_time first_timestamp : Z) (s s' : session) :
  readings s' = readings s -> sleeps s' = sleeps s -> latencies s' = latencies s ->
  paced_by replay_start_time first_timestamp [] s s'.
Proof.
  intros Hr Hs Hl. exists []. simpl. rewrite !app_nil_r. auto.
Qed.

Lemma paced_by_cons (replay_start_time first_timestamp : Z) (t : tick)
    (ticks : list tick) (s1 s2 s3 : session) :
  paced_by replay_start_time first_timestamp [t] s1 s2 ->
  paced_by replay_start_time first_timestamp ticks s2 s3 ->
  paced_by replay_start_time first_timestamp (t :: ticks) s1 s3.
Proof.
  intros (clock1 & Hn1 & Hr1 & Hs1 & Hl1) (clock & Hn & Hr & Hs & Hl).
  destruct clock1 as [| c [| a [| x rest]]]; simpl in Hn1; try lia.
  exists (c :: a :: clock).
  split; [simpl; lia |].
  split; [rewrite Hr, Hr1, <- app_assoc; reflexivity |].
  simpl in Hs1, Hl1. cbn [pacing map].
  split.
  - rewrite Hs, Hs1, <- app_assoc. cbn [filter fst].
    destruct (0 <? _); reflexivity.
  - rewrite Hl, Hl1, <- app_assoc. reflexivity.
Qed.

(** Sessions that agree on the clock's record can stand for each other. *)
Lemma paced_by_ext (replay_start_time first_timestamp : Z) (ticks : list tick)
    (s s' t t' : session) :
  readings t = readings s -> sleeps t = sleeps s -> latencies t = latencies s ->
  readings t' = readings s' -> sleeps t' = sleeps s' -> latencies t' = latencies s' ->
  paced_by replay_start_time first_timestamp ticks s s' ->
  paced_by replay_start_time first_timestamp ticks t t'.
Proof.
  intros R S L R' S' L' (clock & Hn & Hr & Hs & Hl).
  exists clock. rewrite R, S, L, R', S', L'. auto.
Qed.

Lemma pace_group_open (replay_start_time first_timestamp : Z) (item : tick)
    (s : session) :
  peer s = None ->
  exists s',
    pace_group replay_start_time first_timestamp item s = (Done tt, s') /\
    sent s' = sent s ++ tick_messages item /\
    peer s' = None /\
    length (latencies s') = S (length (latencies s)) /\
    keeps_channel s s' /\
    paced_by replay_start_time first_timestamp [item] s s'.
Proof.
  intros Hpeer. destruct item as [[timestamp messages] num_trades].
  destruct (pace_group_prefix replay_start_time first_timestamp timestamp s)
    as (s1 & E1 & V1 & C1).
  destruct (view_fields _ _ _ _ _ _ _ _ _ V1) as (A1 & B1 & _ & _ & _ & _ & _ & T1).
  rewrite Hpeer in B1.
  destruct (gather_send_open messages s1 B1) as (s2 & E2 & V2 & C2).
  destruct (view_fields _ _ _ _ _ _ _ _ _ V2) as (A2 & B2 & _ & _ & _ & _ & _ & T2).
  match type of E1 with _ = (Done ?d, _) => set (delay := d) in * end.
  destruct (logging_spec (fst (sent_line num_trades timestamp delay))
              (snd (sent_line num_trades timestamp delay)) s2) as (s3 & E3 & V3 & C3).
  destruct (view_fields _ _ _ _ _ _ _ _ _ V3) as (A3 & B3 & _ & _ & _ & _ & _ & T3).
  assert (Heq : pace_group replay_start_time first_timestamp
                  (timestamp, messages, num_trades) s = (Done tt, s3)).
  { rewrite pace_group_split. unfold bind at 1. rewrite E1.
    unfold bind at 1. rewrite E2. exact E3. }
  pose proof (pace_group_run replay_start_time first_timestamp timestamp messages
                num_trades s) as (Hr & Hs & Hl & _).
  rewrite Heq in Hr, Hs, Hl. cbn [snd] in Hr, Hs, Hl.
  exists s3.
  split; [exact Heq |].
  split; [unfold tick_messages; simpl; congruence |].
  split; [congruence |].
  split; [rewrite T3, T2, T1, length_app; simpl; lia |].
  split.
  - eapply keeps_channel_trans; [exact C1 |].
    eapply keeps_channel_trans; [exact C2 | exact C3].
  - apply paced_by_one; assumption.
Qed.

Lemma pace_loop_open (replay_start_time first_timestamp : Z)
    (output : list (option tick)) (ticks : list tick) :
  forall (fuel : nat) (s : session),
    (length ticks < fuel)%nat ->
    peer s = None ->
    channel s (map Some ticks ++ [None]) output ->
    exists s',
      pace_loop fuel replay_start_time first_timestamp s = (Done tt, s') /\
      sent s' = sent s ++ concat (map tick_messages ticks) /\
      peer s' = None /\
      length (latencies s') = (length (latencies s) + length ticks)%nat /\
      channel s' [] output /\
      paced_by replay_start_time first_timestamp ticks s s'.
Proof.
  induction ticks as [| t ticks IH]; intros fuel s Hfuel Hpeer Hch;
    (destruct fuel as [| fuel]; [simpl in Hfuel; lia |]);
    simpl in Hch;
    destruct (queue_get_channel s _ _ _ Hch) as (s1 & E1 & V1 & C1);
    pose proof (view_fields _ _ _ _ _ _ _ _ _ V1) as (A1 & B1 & _ & _ & R1 & S1 & _ & T1);
    cbn [pace_loop]; unfold bind at 1; rewrite E1.
  - exists s1. unfold ret. simpl. rewrite app_nil_r, Nat.add_0_r.
    split; [reflexivity |]. split; [exact A1 |].
    split; [congruence |]. split; [congruence |].
    split; [exact C1 |]. apply paced_by_nil; assumption.
  - assert (Hpeer1 : peer s1 = None) by congruence.
    destruct (pace_group_open replay_start_time first_timestamp t s1 Hpeer1)
      as (s2 & E2 & A2 & B2 & T2 & C2 & D2).
    destruct (IH fuel s2) as (s3 & E3 & A3 & B3 & T3 & C3 & D3).
    + simpl in Hfuel. lia.
    + exact B2.
    + apply C2. exact C1.
    + exists s3. unfold bind at 1. rewrite E2, E3.
      split; [reflexivity |].
      split; [simpl; rewrite A3, A2, A1, <- app_assoc; reflexivity |].
      split; [exact B3 |].
      split; [simpl; rewrite T3, T2, T1; lia |].
      split; [exact C3 |].
      eapply paced_by_cons; [| exact D3].
      eapply paced_by_ext; [| | | | | | exact D2]; auto.
Qed.

Lemma report_latency_spec (s : session) :
  exists text s',
    report_latency s = (Done tt, s') /\
    handler_view s'
    = (sent s, peer s, now s, lapses s, readings s, sleeps s,
       log s ++ [(INFO, text)], latencies s) /\
    keeps_channel s s'.
Proof.
  unfold report_latency. destruct (latencies s) eqn:Hl; eexists;
    match goal with |- context [logging ?l ?t s] =>
      destruct (logging_spec l t s) as (s' & E & V & C)
    end;
    exists s'; rewrite Hl in V; (split; [exact E | split; [exact V | exact C]]).
Qed.

Lemma create_producer_spec (max_queue_size : Z) (trades_df : DataFrame) (s : session) :
  exists s',
    create_producer max_queue_size trades_df s = (Done tt, s') /\
    handler_view s' = handler_view s /\
    channel s' (full_output trades_df) (full_output trades_df).
Proof.
  eexists. split; [reflexivity |]. split; [reflexivity |].
  eexists. simpl. split; [reflexivity |]. simpl.
  repeat split. discriminate.
Qed.

Lemma messages_of_ticks (groups : list (Z * list row)) :
  concat (map tick_messages (map tick_of_group groups))
  = concat (map (fun g => map document (snd g)) groups).
Proof.
  rewrite map_map. reflexivity.
Qed.

(** The [try] block on a readable file and a connection that stays open:
    the status frame, the messages of each group in the order of the
    groups, the final status frame. *)
Lemma replay_body_open (disk : string -> parquet) (trade_file : string)
    (max_queue_size : Z) (df : DataFrame) (s : session) :
  disk trade_file = Table df ->
  peer s = None ->
  let groups := groupby_timestamp (sort_values py df) in
  exists s',
    replay_body disk trade_file max_queue_size s = (Done tt, s') /\
    sent s'
    = sent s ++ [status_message DATA_LOADED]
      ++ concat (map (fun g => map document (snd g)) groups)
      ++ [status_message REPLAY_FINISHED] /\
    peer s' = None /\
    length (latencies s') = (length (latencies s) + pred (length groups))%nat /\
    channel s' [] (full_output (sort_values py df)) /\
    replay_timing groups s s'.
Proof.
  intros Hdisk Hpeer groups.
  unfold replay_body. rewrite Hdisk. cbv zeta.
  destruct (create_producer_spec max_queue_size (sort_values py df) s)
    as (s1 & E1 & V1 & C1).
  unfold bind at 1. rewrite E1.
  assert (P1 : peer s1 = None) by (unfold handler_view in V1; congruence).
  assert (A1 : sent s1 = sent s) by (unfold handler_view in V1; congruence).
  assert (T1 : latencies s1 = latencies s) by (unfold handler_view in V1; congruence).
  assert (R1 : readings s1 = readings s) by (unfold handler_view in V1; congruence).
  assert (S1 : sleeps s1 = sleeps s) by (unfold handler_view in V1; congruence).
  destruct (websocket_send_open (status_message DATA_LOADED) s1 P1)
    as (s2 & E2 & V2 & C2).
  unfold bind at 1. rewrite E2.
  destruct (view_fields _ _ _ _ _ _ _ _ _ V2) as (A2 & P2 & _ & _ & R2 & S2 & _ & T2).
  apply C2 in C1. unfold full_output in C1 at 1. fold groups in C1.
  pose proof (groupby_length (sort_values py df)) as Hlen. fold groups in Hlen.
  destruct groups as [| g gs]; simpl in C1.
  - destruct (queue_get_channel s2 _ _ _ C1) as (s3 & E3 & V3 & C3).
    unfold bind at 1. rewrite E3.
    destruct (logging_spec INFO NoTradesToReplay s3) as (s4 & E4 & V4 & C4).
    unfold bind at 1. rewrite E4.
    assert (P4 : peer s4 = None)
      by (unfold handler_view in V3, V4; congruence).
    destruct (websocket_send_open (status_message REPLAY_FINISHED) s4 P4)
      as (s5 & E5 & V5 & C5).
    rewrite E5. exists s5.
    destruct (view_fields _ _ _ _ _ _ _ _ _ V4) as (A4 & _ & _ & _ & R4 & S4 & _ & T4).
    destruct (view_fields _ _ _ _ _ _ _ _ _ V5) as (A5 & P5 & _ & _ & R5 & S5 & _ & T5).
    unfold handler_view in V3.
    split; [reflexivity |].
    split; [simpl; rewrite A5, A4; replace (sent s3) with (sent s2) by congruence;
            rewrite A2, A1, <- app_assoc; reflexivity |].
    split; [exact P5 |].
    split; [simpl; rewrite T5, T4; replace (latencies s3) with (latencies s2) by congruence;
            rewrite T2, T1; lia |].
    split; [apply C5, C4, C3 |].
    simpl.
    split; [rewrite R5, R4; replace (readings s3) with (readings s2) by congruence;
            congruence |].
    split; [rewrite S5, S4; replace (sleeps s3) with (sleeps s2) by congruence;
            congruence |].
    rewrite T5, T4; replace (latencies s3) with (latencies s2) by congruence;
      congruence.
  - destruct (queue_get_channel s2 _ _ _ C1) as (s3 & E3 & V3 & C3).
    unfold bind at 1. rewrite E3. unfold tick_of_group at 1. cbv iota beta.
    destruct (loop_time_spec s3) as (s4 & E4 & V4 & C4).
    unfold bind at 1. rewrite E4.
    destruct (view_fields _ _ _ _ _ _ _ _ _ V4) as (A4 & P4 & _ & _ & R4 & S4 & _ & T4).
    assert (A3 : sent s3 = sent s2) by (unfold handler_view in V3; congruence).
    assert (P3 : peer s3 = None) by (unfold handler_view in V3; congruence).
    assert (T3 : latencies s3 = latencies s2) by (unfold handler_view in V3; congruence).
    assert (R3 : readings s3 = readings s2) by (unfold handler_view in V3; congruence).
    assert (S3 : sleeps s3 = sleeps s2) by (unfold handler_view in V3; congruence).
    rewrite P3 in P4.
    destruct (gather_send_open (map document (snd g)) s4 P4) as (s5 & E5 & V5 & C5).
    unfold bind at 1. rewrite E5.
    destruct (view_fields _ _ _ _ _ _ _ _ _ V5) as (A5 & P5 & _ & _ & R5 & S5 & _ & T5).
    destruct (logging_spec INFO (SentInitial (length (snd g)) (fst g)) s5)
      as (s6 & E6 & V6 & C6).
    unfold bind at 1. rewrite E6.
    destruct (view_fields _ _ _ _ _ _ _ _ _ V6) as (A6 & P6 & _ & _ & R6 & S6 & _ & T6).
    rewrite P5 in P6.
    assert (Hch6 : channel s6 (map Some (map tick_of_group gs) ++ [None])
                     (full_output (sort_values py df))).
    { apply C6, C5, C4. rewrite map_map. exact C3. }
    destruct (pace_loop_open (now s3 + hd 0 (lapses s3)) (fst g)
                (full_output (sort_values py df)) (map tick_of_group gs)
                (S (length (sort_values py df))) s6)
      as (s7 & E7 & A7 & P7 & T7 & C7 & D7);
      [rewrite length_map; simpl in Hlen; lia | exact P6 | exact Hch6 |].
    unfold bind at 1. rewrite E7.
    destruct (logging_spec INFO ReplayFinishedLog s7) as (s8 & E8 & V8 & C8).
    unfold bind at 1. rewrite E8.
    destruct (view_fields _ _ _ _ _ _ _ _ _ V8) as (A8 & P8 & _ & _ & R8 & S8 & _ & T8).
    rewrite P7 in P8.
    destruct (websocket_send_open (status_message REPLAY_FINISHED) s8 P8)
      as (s9 & E9 & V9 & C9).
    unfold bind at 1. rewrite E9.
    destruct (view_fields _ _ _ _ _ _ _ _ _ V9) as (A9 & P9 & _ & _ & R9 & S9 & _ & T9).
    destruct (report_latency_spec s9) as (text & s10 & E10 & V10 & C10).
    rewrite E10. exists s10.
    destruct (view_fields _ _ _ _ _ _ _ _ _ V10)
      as (A10 & P10 & _ & _ & R10 & S10 & _ & T10).
    split; [reflexivity |].
    split.
    { rewrite A10, A9, A8, A7, A6, A5, A4, A3, A2, A1.
      rewrite messages_of_ticks. simpl. rewrite <- !app_assoc. reflexivity. }
    split; [congruence |].
    split.
    { rewrite T10, T9, T8, T7, T6, T5, T4, T3, T2, T1, length_map. simpl. lia. }
    split; [apply C10, C9, C8, C7 |].
    exists (now s3 + hd 0 (lapses s3)), s6.
    split.
    { destruct (view_fields _ _ _ _ _ _ _ _ _ V2) as (_ & _ & N2 & L2 & _).
      unfold handler_view in V1, V3.
      replace (now s3) with (now s2) by congruence.
      replace (lapses s3) with (lapses s2) by congruence.
      rewrite N2, L2.
      replace (now s1) with (now s) by congruence.
      replace (lapses s1) with (lapses s) by congruence.
      reflexivity. }
    split; [congruence |]. split; [congruence |]. split; [congruence |].
    eapply paced_by_ext; [| | | | | | exact D7]; congruence.
Qed.

(** A channel with nothing left: the producer has returned, with its whole
    output on record, and cancelling it changes nothing. *)
Lemma channel_drained (s : session) (output : list (option tick)) :
  channel s [] output ->
  exists p,
    producer_task s = Some p /\ pc p = Returned /\ emitted p = output /\
    cancel p (queue s) = (p, queue s).
Proof.
  intros (p & Hp & Hpc & Hb & Ho).
  apply app_eq_nil in Hb. destruct Hb as [_ Hf].
  rewrite Hf, app_nil_r in Ho.
  assert (Hret : pc p = Returned).
  { unfold future, full_output in Hf.
    destruct (pc p); try congruence;
      try (apply app_eq_nil in Hf; destruct Hf; discriminate); discriminate. }
  exists p. repeat split; try assumption.
  apply cancel_after_completion. left. exact Hret.
Qed.

(** The whole handler on a readable file and a connection that stays
    open. *)
Lemma replay_trades_open (disk : string -> parquet) (trade_file : string)
    (max_queue_size : Z) (df : DataFrame) (s : session) :
  disk trade_file = Table df ->
  peer s = None ->
  let groups := groupby_timestamp (sort_values py df) in
  let res := replay_trades disk trade_file max_queue_size s in
  fst res = Done tt /\
  sent (snd res)
  = sent s ++ [status_message DATA_LOADED]
    ++ concat (map (fun g => map document (snd g)) groups)
    ++ [status_message REPLAY_FINISHED] /\
  length (latencies (snd res)) = (length (latencies s) + pred (length groups))%nat /\
  replay_timing groups s (snd res) /\
  exists p,
    producer_task (snd res) = Some p /\
    pc p = Returned /\
    emitted p = full_output (sort_values py df).
Proof.
  intros Hdisk Hpeer groups res. unfold res, replay_trades.
  destruct (logging_spec INFO ClientConnected s) as (s0 & E0 & V0 & _).
  unfold bind. rewrite E0.
  destruct (view_fields _ _ _ _ _ _ _ _ _ V0) as (A0 & P0 & N0 & L0 & R0 & S0 & _ & T0).
  rewrite Hpeer in P0.
  destruct (replay_body_open disk trade_file max_queue_size df s0 Hdisk P0)
    as (s1 & E1 & A1 & P1 & T1 & C1 & D1).
  unfold finally_clause, except_clauses. rewrite E1.
  destruct (channel_drained s1 _ C1) as (p & Hp & Hret & Hout & Hcancel).
  rewrite Hp, Hcancel. simpl.
  split; [reflexivity |].
  split; [rewrite A1, A0; reflexivity |].
  split; [rewrite T1, T0; reflexivity |].
  split; [| exists p; auto].
  fold groups in D1. unfold replay_timing in *.
  destruct groups as [| g later].
  - simpl. rewrite <- R0, <- S0, <- T0. exact D1.
  - destruct D1 as (start & mid & Hst & Hr & Hs & Hl & Hp1).
    exists start, mid.
    split; [congruence |].
    split; [congruence |]. split; [congruence |]. split; [congruence |].
    eapply paced_by_ext; [| | | | | | exact Hp1]; reflexivity.
Qed.

(** ** The schedule of a replay *)


(** * The frames on the wire *)

(** C5.  On a connection that stays open, the frames the handler puts on
    the wire are the status frame, then for each group in turn every
    message of the group in the order of the group's record list, then
    the final status frame; nothing is left out, doubled or reordered. *)
Theorem groups_sent_in_record_order (disk : string -> parquet) (trade_file : string)
    (max_queue_size : Z) (df : DataFrame) (now0 : Z) (lapses0 : list Z) :
  disk trade_file = Table df ->
  let res :=
    replay_trades disk trade_file max_queue_size (connect None now0 lapses0) in
  let groups := groupby_timestamp (sort_values py df) in
  fst res = Done tt /\
  sent (snd res)
  = [status_message DATA_LOADED]
    ++ concat (map (fun g => map document (snd g)) groups)
    ++ [status_message REPLAY_FINISHED].
Proof.
  intros Hdisk res groups.
  destruct (replay_trades_open disk trade_file max_queue_size df
              (connect None now0 lapses0) Hdisk eq_refl) as (H1 & H2 & _).
  split; [exact H1 | exact H2].
Qed.

(** C6.  For a dataset without rows, on a connection that takes two
    frames, the handler sends the "Data loaded. Starting replay." status,
    then the "Replay finished." status, and nothing else. *)
Theorem empty_dataset_messages (disk : string -> parquet) (trade_file : string)
    (max_queue_size : Z) (peer0 : option nat) (now0 : Z) (lapses0 : list Z) :
  disk trade_file = Table [] ->
  accepts 2 peer0 ->
  let res :=
    replay_trades disk trade_file max_queue_size (connect peer0 now0 lapses0) in
  fst res = Done tt /\
  sent (snd res) = [status_message DATA_LOADED; status_message REPLAY_FINISHED].
Proof.
  intros Hdisk Hpeer res. unfold res, replay_trades, replay_body.
  rewrite Hdisk.
  rewrite (Permutation_nil (Permutation_sym (sort_values_perm py []))).
  unfold bind, finally_clause, except_clauses, websocket_send, queue_get, run_ready,
    resume, cancel, produce_finally, full, qsize.
  destruct peer0 as [[| [| k]] |]; simpl in Hpeer; try lia; simpl;
    unfold produce_finally, full, qsize; simpl;
    destruct (max_queue_size <=? 0); simpl; split; reflexivity.
Qed.

(** C8.  When [pd.read_parquet] fails, for a missing file as for any other
    reason, the handler sends one frame, an object with the single member
    [error], and nothing else; it creates no producer, and it returns to
    the server that called it without raising.  Should the connection be
    closed already, the frame is not sent and the handler returns all the
    same. *)
Theorem unreadable_dataset_reports_error (disk : string -> parquet)
    (trade_file : string) (max_queue_size : Z)
    (peer0 : option nat) (now0 : Z) (lapses0 : list Z) :
  disk trade_file = FileNotFound \/ disk trade_file = Unreadable ->
  let res :=
    replay_trades disk trade_file max_queue_size (connect peer0 now0 lapses0) in
  fst res = Done tt /\
  producer_task (snd res) = None /\
  (accepts 1 peer0 ->
   sent (snd res) = [error_message (load_error_text (disk trade_file) trade_file)]) /\
  (peer0 = Some O -> sent (snd res) = []).
Proof.
  intros Hdisk res. unfold res, replay_trades, replay_body.
  destruct Hdisk as [Hdisk | Hdisk]; rewrite Hdisk;
    unfold bind, finally_clause, except_clauses, websocket_send, run_ready;
    destruct peer0 as [[| k] |]; simpl;
    repeat split; try reflexivity; try discriminate; intros; lia.
Qed.

(** * Further properties of the producer *)

Lemma ticks_of_app (l1 l2 : list (option tick)) :
  ticks_of (l1 ++ l2) = ticks_of l1 ++ ticks_of l2.
Proof.
  induction l1 as [| [t |] rest IH]; simpl; [reflexivity | | exact IH].
  rewrite IH. reflexivity.
Qed.

(** ** The bound of the queue *)

Lemma step_maxsize (e : event) (st : producer * Queue) :
  maxsize (snd (step e st)) = maxsize (snd st).
Proof.
  destruct st as [p q]. destruct e; simpl.
  - apply resume_backlog.
  - reflexivity.
  - unfold cancel. destruct (pc p); simpl; try reflexivity.
    apply produce_finally_backlog.
Qed.

Lemma run_maxsize (events : list event) :
  forall st, maxsize (snd (run events st)) = maxsize (snd st).
Proof.
  induction events as [| e rest IH]; intros st; simpl; [reflexivity |].
  unfold run in IH. rewrite IH. apply step_maxsize.
Qed.

Lemma put_within_bound (q : Queue) (x : option tick) :
  full q = false -> 0 < maxsize q -> qsize (put_nowait q x) <= maxsize q.
Proof.
  unfold full, qsize, put_nowait. simpl. intros Hfull Hmax.
  destruct (maxsize q <=? 0) eqn:H0; [apply Z.leb_le in H0; lia |].
  apply Z.leb_gt in Hfull. rewrite length_app. simpl. lia.
Qed.

Lemma produce_finally_bound (p : producer) (q : Queue) :
  qsize q <= maxsize q -> 0 < maxsize q ->
  qsize (snd (produce_finally p q)) <= maxsize q.
Proof.
  intros Hq Hmax. unfold produce_finally.
  destruct (full q) eqn:Hfull; simpl; [exact Hq |].
  apply put_within_bound; assumption.
Qed.

Lemma produce_loop_bound (groups : list (Z * list row)) :
  forall p q,
    qsize q <= maxsize q -> 0 < maxsize q ->
    qsize (snd (produce_loop groups p q)) <= maxsize q.
Proof.
  induction groups as [| g rest IH]; simpl; intros p q Hq Hmax.
  - apply produce_finally_bound; assumption.
  - destruct (full q) eqn:Hfull; simpl; [exact Hq |].
    change (maxsize q) with (maxsize (put_nowait q (Some (tick_of_group g)))).
    apply IH; [| exact Hmax].
    change (maxsize (put_nowait q (Some (tick_of_group g)))) with (maxsize q).
    apply put_within_bound; assumption.
Qed.

Lemma step_bound (e : event) (st : producer * Queue) :
  qsize (snd st) <= maxsize (snd st) -> 0 < maxsize (snd st) ->
  qsize (snd (step e st)) <= maxsize (snd st).
Proof.
  destruct st as [p q]. simpl. intros Hq Hmax. destruct e; simpl.
  - unfold resume. destruct (pc p); simpl; try exact Hq.
    + apply produce_loop_bound; assumption.
    + apply produce_loop_bound; assumption.
    + apply produce_finally_bound; assumption.
  - unfold qsize in *. simpl. destruct (items q); simpl in *; lia.
  - unfold cancel. destruct (pc p); simpl; try exact Hq.
    apply produce_finally_bound; assumption.
Qed.

Lemma run_bound (events : list event) :
  forall st,
    qsize (snd st) <= maxsize (snd st) -> 0 < maxsize (snd st) ->
    qsize (snd (run events st)) <= maxsize (snd st).
Proof.
  induction events as [| e rest IH]; intros st Hq Hm; simpl; [exact Hq |].
  rewrite <- (step_maxsize e st). apply IH.
  - rewrite step_maxsize. apply step_bound; assumption.
  - rewrite step_maxsize. exact Hm.
Qed.

(** X1.  Whatever the producer, the consumer and a cancellation do, a
    queue created with a positive [maxsize] never holds more than
    [maxsize] items. *)
Theorem queue_never_overfull
    (trades_df : DataFrame) (max_queue_size : Z) (events : list event) :
  0 < max_queue_size ->
  qsize (snd (run events (spawn trades_df max_queue_size))) <= max_queue_size.
Proof.
  intros Hmax.
  apply (run_bound events (spawn trades_df max_queue_size)); simpl;
    [unfold qsize; simpl; lia | exact Hmax].
Qed.

Lemma queue_never_overfull_witness :
  qsize (snd (run [Resume; Get; Resume; Cancel; Resume]
                (spawn [mk_row (Some 10) (JStr "A"); mk_row (Some 12) (JStr "C");
                        mk_row (Some 15) (JStr "D")] 2))) <= 2.
Proof.
  apply queue_never_overfull. lia.
Defined.

(** ** The queue and the output *)



(** ** Cancellation only cuts the output short *)

Lemma produce_finally_course (trades_df : DataFrame) (p : producer) (q : Queue) :
  (exists rest, ticks_of (emitted p) ++ rest
                = map tick_of_group (groupby_timestamp trades_df)) ->
  on_course trades_df (fst (produce_finally p q)).
Proof.
  intros [rest H]. unfold produce_finally, on_course.
  destruct (full q); simpl.
  - exists rest. exact H.
  - exists rest. rewrite ticks_of_app. simpl. rewrite app_nil_r. exact H.
Qed.

Lemma produce_loop_course (trades_df : DataFrame) (groups : list (Z * list row)) :
  forall p q,
    ticks_of (emitted p) ++ map tick_of_group groups
    = map tick_of_group (groupby_timestamp trades_df) ->
    on_course trades_df (fst (produce_loop groups p q)).
Proof.
  induction groups as [| g rest IH]; simpl; intros p q H.
  - apply produce_finally_course. exists []. exact H.
  - destruct (full q); simpl.
    + unfold on_course. simpl. exact H.
    + apply IH. simpl. rewrite ticks_of_app. simpl.
      rewrite <- app_assoc. exact H.
Qed.

Lemma on_course_rest (trades_df : DataFrame) (p : producer) :
  on_course trades_df p ->
  exists rest, ticks_of (emitted p) ++ rest
               = map tick_of_group (groupby_timestamp trades_df).
Proof.
  unfold on_course. destruct (pc p); intros H.
  - destruct H as [_ He]. rewrite He. eexists. reflexivity.
  - eexists. exact H.
  - exact H.
  - exact H.
  - exact H.
Qed.

Lemma step_course (trades_df : DataFrame) (e : event) (st : producer * Queue) :
  on_course trades_df (fst st) -> on_course trades_df (fst (step e st)).
Proof.
  destruct st as [p q]. simpl. intros H.
  pose proof (on_course_rest trades_df p H) as Hrest.
  destruct e; simpl.
  - unfold resume. unfold on_course in H. destruct (pc p) eqn:Hpc.
    + destruct H as [Hd He]. subst trades_df0.
      apply produce_loop_course. simpl. rewrite He. reflexivity.
    + apply produce_loop_course. exact H.
    + apply produce_finally_course. exact H.
    + simpl. unfold on_course. rewrite Hpc. exact H.
    + simpl. unfold on_course. rewrite Hpc. exact H.
  - exact H.
  - unfold cancel. destruct (pc p) eqn:Hpc; simpl.
    + unfold on_course. simpl. exact Hrest.
    + apply produce_finally_course. simpl. exact Hrest.
    + unfold on_course. simpl. exact Hrest.
    + exact H.
    + exact H.
Qed.

Lemma run_course (trades_df : DataFrame) (events : list event) :
  forall st, on_course trades_df (fst st) -> on_course trades_df (fst (run events st)).
Proof.
  induction events as [| e rest IH]; intros st Hst; simpl; [exact Hst |].
  apply IH, step_course, Hst.
Qed.

(** X3.  Whatever happens to the producer, a cancellation included, the
    groups it has put on the queue are an initial segment of the groups
    of [groupby], in their order: a cancelled producer leaves groups out
    at the end, it never skips, repeats or reorders one. *)
Theorem producer_output_is_prefix
    (trades_df : DataFrame) (max_queue_size : Z) (events : list event) :
  let p := fst (run events (spawn trades_df max_queue_size)) in
  exists rest,
    ticks_of (emitted p) ++ rest = map tick_of_group (groupby_timestamp trades_df).
Proof.
  apply on_course_rest, run_course.
  unfold on_course. simpl. auto.
Qed.

Lemma step_closing (e : event) (st : producer * Queue) :
  closing (pc (fst st)) = true ->
  closing (pc (fst (step e st))) = true /\
  ticks_of (emitted (fst (step e st))) = ticks_of (emitted (fst st)).
Proof.
  destruct st as [p q]. simpl. intros H.
  assert (Hfin : closing (pc (fst (produce_finally p q))) = true /\
                 ticks_of (emitted (fst (produce_finally p q))) = ticks_of (emitted p)).
  { unfold produce_finally. destruct (full q); simpl; [auto |].
    rewrite ticks_of_app. simpl. rewrite app_nil_r. auto. }
  destruct e; simpl.
  - unfold resume. destruct (pc p) eqn:Hpc; simpl in *; try discriminate;
      try (rewrite Hpc; auto). exact Hfin.
  - auto.
  - unfold cancel. destruct (pc p) eqn:Hpc; simpl in *; try discriminate;
      try (rewrite Hpc; auto). auto.
Qed.

Lemma cancel_closes (p : producer) (q : Queue) :
  closing (pc (fst (cancel p q))) = true /\
  ticks_of (emitted (fst (cancel p q))) = ticks_of (emitted p).
Proof.
  unfold cancel. destruct (pc p) eqn:Hpc; simpl; try rewrite Hpc; auto.
  unfold produce_finally. destruct (full q); simpl; [auto |].
  rewrite ticks_of_app. simpl. rewrite app_nil_r. auto.
Qed.

(** X4.  Once the producer has been cancelled it puts no further group on
    the queue, whatever room the consumer makes afterwards. *)
Theorem no_group_after_cancel
    (trades_df : DataFrame) (max_queue_size : Z) (before later : list event) :
  let start := spawn trades_df max_queue_size in
  ticks_of (emitted (fst (run (before ++ Cancel :: later) start)))
  = ticks_of (emitted (fst (run before start))).
Proof.
  intros start. unfold run. rewrite fold_left_app. simpl.
  fold (run before start).
  destruct (run before start) as [p q]. simpl.
  pose proof (cancel_closes p q) as [Hc Ht].
  rewrite <- Ht.
  assert (H : forall st, closing (pc (fst st)) = true ->
                         ticks_of (emitted (fst (fold_left (fun st e => step e st) later st)))
                         = ticks_of (emitted (fst st))).
  { induction later as [| e rest IH]; intros st Hst; simpl; [reflexivity |].
    destruct (step_closing e st Hst) as [H1 H2].
    rewrite IH by exact H1. exact H2. }
  apply H. exact Hc.
Qed.

(** ** A queue without a bound *)

Lemma unbounded_never_full (q : Queue) : maxsize q <= 0 -> full q = false.
Proof.
  intros H. unfold full. apply Z.leb_le in H. rewrite H. reflexivity.
Qed.

Lemma produce_loop_unbounded (groups : list (Z * list row)) :
  forall p q,
    maxsize q <= 0 ->
    let st := produce_loop groups p q in
    pc (fst st) = Returned /\
    emitted (fst st)
    = emitted p ++ map (fun g => Some (tick_of_group g)) groups ++ [None] /\
    items (snd st)
    = items q ++ map (fun g => Some (tick_of_group g)) groups ++ [None].
Proof.
  induction groups as [| g rest IH]; simpl; intros p q Hmax.
  - unfold produce_finally. rewrite (unbounded_never_full q Hmax). simpl. auto.
  - rewrite (unbounded_never_full q Hmax).
    destruct (IH (mk_producer (pc p) (emitted p ++ [Some (tick_of_group g)])
                    (producer_log p))
                 (put_nowait q (Some (tick_of_group g))) Hmax) as (H1 & H2 & H3).
    simpl in H2, H3. rewrite <- app_assoc in H2, H3. auto.
Qed.

(** X5.  A queue created with [maxsize <= 0] has no bound: the producer
    never waits, and its first step puts every group and the marker on the
    queue and returns. *)
Theorem unbounded_queue_one_step (trades_df : DataFrame) (max_queue_size : Z) :
  max_queue_size <= 0 ->
  let st := run [Resume] (spawn trades_df max_queue_size) in
  pc (fst st) = Returned /\
  emitted (fst st) = full_output trades_df /\
  items (snd st) = full_output trades_df.
Proof.
  intros Hmax. simpl. unfold resume. simpl.
  apply (produce_loop_unbounded (groupby_timestamp trades_df)
           (mk_producer (Created trades_df) [] [(INFO, ProducerStarting)])
           (mk_queue max_queue_size []) Hmax).
Qed.

Lemma unbounded_queue_one_step_witness :
  let st := run [Resume]
              (spawn [mk_row (Some 12) (JStr "C"); mk_row (Some 10) (JStr "A")] 0) in
  pc (fst st) = Returned /\
  emitted (fst st)
  = full_output [mk_row (Some 12) (JStr "C"); mk_row (Some 10) (JStr "A")] /\
  items (snd st)
  = full_output [mk_row (Some 12) (JStr "C"); mk_row (Some 10) (JStr "A")].
Proof.
  apply unbounded_queue_one_step. lia.
Defined.

(** ** The shape of the groups *)

Lemma add_to_group_nonempty (key : Z) (r : row) (groups : list (Z * list row)) :
  Forall (fun g => snd g <> []) groups ->
  Forall (fun g => snd g <> []) (add_to_group key r groups).
Proof.
  induction groups as [| [key' members] rest IH]; simpl; intros H.
  - constructor; [discriminate | constructor].
  - inversion H as [| g gs Hg Hgs]; subst.
    destruct (key <? key').
    + constructor; [discriminate | exact H].
    + destruct (key =? key').
      * constructor; [| exact Hgs]. simpl. destruct members; discriminate.
      * constructor; [exact Hg | apply IH; exact Hgs].
Qed.

Lemma groupby_nonempty (df : DataFrame) :
  Forall (fun g => snd g <> []) (groupby_timestamp df).
Proof.
  unfold groupby_timestamp.
  assert (H : forall acc, Forall (fun g => snd g <> []) acc ->
                          Forall (fun g => snd g <> []) (fold_left add_row df acc)).
  { induction df as [| r df IH]; simpl; intros acc Hacc; [exact Hacc |].
    apply IH. unfold add_row. destruct (timestamp r) as [key |]; [| exact Hacc].
    apply add_to_group_nonempty, Hacc. }
  apply H. constructor.
Qed.

Lemma groups_counted (groups : list (Z * list row)) :
  Forall (fun g => snd g <> []) groups ->
  Forall (fun t => (1 <= tick_count t)%nat /\
                   tick_count t = length (tick_messages t))
         (map tick_of_group groups).
Proof.
  induction 1 as [| g gs Hg _ IH]; simpl; constructor; [| exact IH].
  unfold tick_count, tick_messages, tick_of_group. simpl.
  rewrite length_map. split; [| reflexivity].
  destruct (snd g); [congruence | simpl; lia].
Qed.

(** X6.  Whatever happens to the producer, no group it puts on the queue
    is empty, and the [count] of a group is the number of its messages. *)
Theorem emitted_groups_counted
    (trades_df : DataFrame) (max_queue_size : Z) (events : list event) :
  let p := fst (run events (spawn trades_df max_queue_size)) in
  Forall (fun t => (1 <= tick_count t)%nat /\
                   tick_count t = length (tick_messages t))
         (ticks_of (emitted p)).
Proof.
  intros p.
  assert (Hc : on_course trades_df p)
    by (apply run_course; unfold on_course; simpl; auto).
  destruct (on_course_rest trades_df p Hc) as [rest H].
  pose proof (groups_counted _ (groupby_nonempty trades_df)) as Hall.
  rewrite <- H in Hall. apply Forall_app in Hall. apply Hall.
Qed.

Lemma in_rows_of (r : row) (groups : list (Z * list row)) :
  In r (rows_of groups) <-> exists g, In g groups /\ In r (snd g).
Proof.
  unfold rows_of. rewrite in_concat. split.
  - intros (l & Hl & Hr). apply in_map_iff in Hl. destruct Hl as (g & Hg & Hin).
    exists g. subst l. auto.
  - intros (g & Hg & Hr). exists (snd g). split; [apply in_map; exact Hg | exact Hr].
Qed.

(** There is a group for a timestamp exactly when some row of the frame
    carries that timestamp, and no two groups share a key. *)
Lemma groupby_keys_exact (trades_df : DataFrame) (key : Z) :
  (In key (keys (groupby_timestamp trades_df))
   <-> exists r, In r trades_df /\ timestamp r = Some key) /\
  NoDup (keys (groupby_timestamp trades_df)).
Proof.
  pose proof (groupby_partition trades_df) as Hperm.
  pose proof (groupby_same_timestamp trades_df) as Hsame.
  pose proof (groupby_nonempty trades_df) as Hne.
  pose proof (groupby_keys_increasing trades_df) as Hinc.
  split; [split |].
  - intros Hin. unfold keys in Hin. apply in_map_iff in Hin.
    destruct Hin as (g & Hk & Hg).
    rewrite Forall_forall in Hne, Hsame.
    specialize (Hne g Hg). specialize (Hsame g Hg).
    destruct (snd g) as [| r members] eqn:Hm; [congruence |].
    exists r. split.
    + assert (Hin : In r (filter has_timestamp trades_df)).
      { apply (Permutation_in r Hperm). apply in_rows_of.
        exists g. split; [exact Hg | rewrite Hm; left; reflexivity]. }
      apply filter_In in Hin. apply Hin.
    + unfold same_timestamp in Hsame. rewrite Hm in Hsame.
      inversion Hsame; subst. congruence.
  - intros (r & Hr & Hk).
    assert (Hf : In r (filter has_timestamp trades_df)).
    { apply filter_In. split; [exact Hr |]. unfold has_timestamp. rewrite Hk.
      reflexivity. }
    apply (Permutation_in r (Permutation_sym Hperm)) in Hf.
    apply in_rows_of in Hf. destruct Hf as (g & Hg & Hin).
    rewrite Forall_forall in Hsame. specialize (Hsame g Hg).
    unfold same_timestamp in Hsame. rewrite Forall_forall in Hsame.
    specialize (Hsame r Hin). unfold keys. apply in_map_iff.
    exists g. split; [congruence | exact Hg].
  - induction Hinc as [| k ks Hks IH Hall]; constructor; [| exact IH].
    intros Hin. rewrite Forall_forall in Hall. specialize (Hall k Hin). lia.
Qed.

Lemma returned_output
    (trades_df : DataFrame) (max_queue_size : Z) (events : list event) :
  forallb (fun e => negb (is_cancel e)) events = true ->
  pc (fst (run events (spawn trades_df max_queue_size))) = Returned ->
  ticks_of (emitted (fst (run events (spawn trades_df max_queue_size))))
  = map tick_of_group (groupby_timestamp trades_df).
Proof.
  intros Hev Hret.
  destruct (run_undisturbed trades_df events (spawn trades_df max_queue_size) Hev)
    as [_ Hfull]; [split; [discriminate | reflexivity] |].
  unfold future in Hfull. rewrite Hret, app_nil_r in Hfull.
  rewrite Hfull. unfold full_output. rewrite ticks_of_groups.
  simpl. apply app_nil_r.
Qed.

(** X7.  When a producer that nobody cancels has returned, it has put one
    group, and only one, for each distinct timestamp of the frame: a
    timestamp is that of an emitted group exactly when some row carries
    it, and no two emitted groups have the same timestamp. *)
Theorem one_group_per_timestamp
    (trades_df : DataFrame) (max_queue_size : Z) (events : list event) :
  forallb (fun e => negb (is_cancel e)) events = true ->
  pc (fst (run events (spawn trades_df max_queue_size))) = Returned ->
  let out := ticks_of (emitted (fst (run events (spawn trades_df max_queue_size)))) in
  (forall key,
      In key (map tick_timestamp out)
      <-> exists r, In r trades_df /\ timestamp r = Some key) /\
  NoDup (map tick_timestamp out).
Proof.
  intros Hev Hret out. unfold out.
  rewrite (returned_output trades_df max_queue_size events Hev Hret).
  rewrite timestamps_of_groups.
  split; [intros key; apply groupby_keys_exact | apply (groupby_keys_exact trades_df 0)].
Qed.

Lemma one_group_per_timestamp_witness :
  let df := [mk_row (Some 12) (JStr "C"); mk_row (Some 10) (JStr "A");
             mk_row (Some 10) (JStr "B")] in
  let out := ticks_of (emitted (fst (run [Resume; Get; Resume; Get; Resume]
                                       (spawn df 1)))) in
  (forall key,
      In key (map tick_timestamp out)
      <-> exists r, In r df /\ timestamp r = Some key) /\
  NoDup (map tick_timestamp out).
Proof.
  intros df out.
  apply (one_group_per_timestamp df 1 [Resume; Get; Resume; Get; Resume]);
    reflexivity.
Defined.

(** * Further properties of the consumer client *)

(** A property of the client's locals that every message keeps is kept
    by the read loop. *)
Lemma read_loop_invariant (n m : Z) (P : client -> Prop) :
  (forall c d,
      P c ->
      P (mk_client (message_count c + 1) (received c ++ [d])
           (client_log c ++ fst (on_message n m (message_count c + 1) d)))) ->
  forall inbound c, P c -> P (snd (read_loop n m inbound c)).
Proof.
  intros Hstep. induction inbound as [| d rest IH]; intros c Hc; simpl; [exact Hc |].
  specialize (Hstep c d Hc).
  destruct (on_message n m (message_count c + 1) d) as [lines v].
  simpl in Hstep. destruct v; simpl; [apply IH; exact Hstep | exact Hstep | exact Hstep].
Qed.

(** The lines around the loop: one for the connection, one for its
    closing if it was closed, one for the total. *)
Lemma listen_log (uri : string) (n m : Z) (inbound : list json) :
  let res := read_loop n m inbound (mk_client 0 [] [(INFO, ConnectedTo uri)]) in
  let c := snd (listen_to_trades uri n m inbound) in
  message_count c = message_count (snd res) /\
  received c = received (snd res) /\
  client_log c
  = client_log (snd res)
    ++ (match fst res with Closed => [(INFO, ConnectionToServerClosed)] | _ => [] end)
    ++ [(INFO, TotalTradesReceived (message_count (snd res)))].
Proof.
  unfold listen_to_trades.
  destruct (read_loop n m inbound (mk_client 0 [] [(INFO, ConnectedTo uri)])) as [why c1].
  destruct why; simpl; rewrite <- ?app_assoc; auto.
Qed.

Lemma on_message_lines (n m count : Z) (d : json) :
  let lines := fst (on_message n m count d) in
  (lines = [] \/
   (has_status d = true /\ lines = [status_line d]) \/
   (has_status d = false /\ count <= n /\ lines = [(INFO, ReceivedTrade d)]) \/
   (has_status d = false /\ n < count /\ m <> 0 /\ count mod m = 0 /\
    lines = [(INFO, ReceivedSoFar count)])) /\
  (has_status d = true -> lines = [status_line d]).
Proof.
  unfold on_message, on_trade. destruct (has_status d); simpl.
  - split; [right; left |]; auto.
  - split; [| discriminate].
    destruct (count <=? n) eqn:Hn.
    + apply Z.leb_le in Hn. right; right; left. auto.
    + apply Z.leb_gt in Hn. destruct (m =? 0) eqn:Hm; [left; reflexivity |].
      apply Z.eqb_neq in Hm.
      destruct (count mod m =? 0) eqn:Hmod; [| left; reflexivity].
      apply Z.eqb_eq in Hmod. right; right; right. auto 6.
Qed.

(** X8.  However many records arrive, the client logs at most
    [show_first_n] of them in full (none when [show_first_n] is not
    positive). *)
Theorem detail_lines_bounded (uri : string) (show_first_n summary_interval : Z)
    (inbound : list json) :
  let c := snd (listen_to_trades uri show_first_n summary_interval inbound) in
  (length (filter is_trade_line (client_log c)) <= Z.to_nat show_first_n)%nat.
Proof.
  intros c.
  destruct (listen_log uri show_first_n summary_interval inbound) as (_ & _ & Hlog).
  fold c in Hlog. rewrite Hlog. clear Hlog c.
  set (P := fun c : client =>
              0 <= message_count c /\
              (length (filter is_trade_line (client_log c))
               <= Z.to_nat (Z.min (message_count c) show_first_n))%nat).
  assert (HP : P (snd (read_loop show_first_n summary_interval inbound
                         (mk_client 0 [] [(INFO, ConnectedTo uri)])))).
  { apply read_loop_invariant.
    - intros c d [Hc Hl]. unfold P. simpl. split; [lia |].
      rewrite filter_app, length_app.
      destruct (on_message_lines show_first_n summary_interval (message_count c + 1) d)
        as [[H | [[_ H] | [(_ & Hn & H) | (_ & _ & _ & _ & H)]]] _];
        rewrite H; simpl; lia.
    - unfold P. simpl. split; [lia | apply Nat.le_0_l]. }
  destruct HP as [_ HP].
  rewrite !filter_app, !length_app.
  destruct (fst (read_loop show_first_n summary_interval inbound
                   (mk_client 0 [] [(INFO, ConnectedTo uri)]))); simpl; lia.
Qed.

(** X9.  Every status frame the client receives is logged as a server
    status, and nothing else is: the status lines of the log are the
    statuses of the received status frames, in the order of arrival. *)
Theorem status_lines_in_order (uri : string) (show_first_n summary_interval : Z)
    (inbound : list json) :
  let c := snd (listen_to_trades uri show_first_n summary_interval inbound) in
  filter is_status_line (client_log c)
  = map status_line (filter has_status (received c)).
Proof.
  intros c.
  destruct (listen_log uri show_first_n summary_interval inbound) as (_ & Hrec & Hlog).
  fold c in Hlog, Hrec. rewrite Hlog, Hrec. clear Hlog Hrec c.
  set (P := fun c : client =>
              filter is_status_line (client_log c)
              = map status_line (filter has_status (received c))).
  assert (HP : P (snd (read_loop show_first_n summary_interval inbound
                         (mk_client 0 [] [(INFO, ConnectedTo uri)])))).
  { apply read_loop_invariant; [| reflexivity].
    intros c d Hc. unfold P in *. simpl.
    rewrite !filter_app, map_app, Hc. f_equal. simpl.
    destruct (on_message_lines show_first_n summary_interval (message_count c + 1) d)
      as [[H | [[Hs H] | [(Hs & _ & H) | (Hs & _ & _ & _ & H)]]] _];
      rewrite H; simpl; try rewrite Hs; try reflexivity.
    destruct (has_status d) eqn:Hs; [| reflexivity].
    destruct (on_message_lines show_first_n summary_interval (message_count c + 1) d)
      as [_ H']. rewrite (H' Hs) in H. discriminate. }
  unfold P in HP. rewrite !filter_app, HP.
  destruct (fst (read_loop show_first_n summary_interval inbound
                   (mk_client 0 [] [(INFO, ConnectedTo uri)]))); simpl;
    rewrite app_nil_r; reflexivity.
Qed.

(** X10.  A running summary "Received k trades so far" is logged only for
    a position [k] past the first-N window that is a multiple of the
    summary interval, and [k] counts every frame received up to there. *)
Theorem summary_lines_at_multiples (uri : string) (show_first_n summary_interval : Z)
    (inbound : list json) (k : Z) :
  let c := snd (listen_to_trades uri show_first_n summary_interval inbound) in
  In (INFO, ReceivedSoFar k) (client_log c) ->
  show_first_n < k /\ k <= message_count c /\
  summary_interval <> 0 /\ k mod summary_interval = 0.
Proof.
  intros c Hin.
  destruct (listen_log uri show_first_n summary_interval inbound) as (Hcount & _ & Hlog).
  fold c in Hlog, Hcount. rewrite Hlog in Hin. rewrite Hcount. clear Hlog Hcount c.
  set (P := fun c : client =>
              Forall (summary_in_place show_first_n summary_interval (message_count c))
                (client_log c)).
  assert (HP : P (snd (read_loop show_first_n summary_interval inbound
                         (mk_client 0 [] [(INFO, ConnectedTo uri)])))).
  { apply read_loop_invariant.
    - intros c d Hc. unfold P in *. simpl. apply Forall_app. split.
      + eapply Forall_impl; [| exact Hc].
        intros [lvl text]. unfold summary_in_place. simpl.
        destruct text; auto. intros (H1 & H2 & H3 & H4). repeat split; auto. lia.
      + destruct (on_message_lines show_first_n summary_interval (message_count c + 1) d)
          as [[H | [[_ H] | [(_ & _ & H) | (_ & Hn & Hm & Hmod & H)]]] _];
          rewrite H; repeat constructor; unfold summary_in_place; simpl; auto.
        repeat split; auto. lia.
    - unfold P. simpl. repeat constructor. }
  unfold P in HP. rewrite Forall_forall in HP.
  apply in_app_iff in Hin. destruct Hin as [Hin | Hin].
  - apply (HP _ Hin).
  - exfalso. apply in_app_iff in Hin. destruct Hin as [Hin | [Hin | []]].
    + destruct (fst (read_loop _ _ _ _)); simpl in Hin;
        try contradiction; destruct Hin as [Hin | []]; discriminate.
    + discriminate.
Qed.

Lemma summary_lines_at_multiples_witness :
  let frames := [status_message DATA_LOADED; JNum 1; JNum 2; JNum 3] in
  let c := snd (listen_to_trades "ws://localhost:8765" 1 2 frames) in
  1 < 2 /\ 2 <= message_count c /\ 2 <> 0 /\ 2 mod 2 = 0.
Proof.
  intros frames c.
  apply (summary_lines_at_multiples "ws://localhost:8765" 1 2 frames 2).
  simpl. auto.
Defined.

(** ** A summary interval of zero *)

Lemma read_loop_crash (n m : Z) (inbound : list json) :
  forall c : client,
    fst (read_loop n m inbound c) = Crashed ->
    let c' := snd (read_loop n m inbound c) in
    m = 0 /\ n < message_count c' /\
    exists earlier d, received c' = earlier ++ [d] /\ has_status d = false.
Proof.
  induction inbound as [| d rest IH]; intros c; simpl; [discriminate |].
  unfold on_message, on_trade.
  destruct (has_status d) eqn:Hs.
  - destruct (json_eq_str (status_of d) REPLAY_FINISHED); simpl;
      [discriminate | apply IH].
  - destruct (message_count c + 1 <=? n) eqn:Hn; [apply IH |].
    destruct (m =? 0) eqn:Hm.
    + simpl. intros _. apply Z.eqb_eq in Hm. apply Z.leb_gt in Hn.
      split; [exact Hm |]. split; [exact Hn |].
      exists (received c), d. auto.
    + destruct ((message_count c + 1) mod m =? 0); apply IH.
Qed.

(** X11.  The client stops with [ZeroDivisionError] only when it was
    started with a summary interval of zero, and then on a frame without a
    [status] member whose position is past the first-N window; with any
    other interval it reads until the end marker or the closing of the
    connection. *)
Theorem client_crashes_only_on_zero_interval
    (uri : string) (show_first_n summary_interval : Z) (inbound : list json) :
  let res := listen_to_trades uri show_first_n summary_interval inbound in
  fst res = Crashed ->
  summary_interval = 0 /\
  show_first_n < message_count (snd res) /\
  exists earlier d, received (snd res) = earlier ++ [d] /\ has_status d = false.
Proof.
  intros res Hcrash.
  destruct (listen_exit uri show_first_n summary_interval inbound) as [Hexit _].
  destruct (listen_log uri show_first_n summary_interval inbound) as (Hcount & Hrec & _).
  fold res in Hexit, Hcount, Hrec. rewrite Hexit in Hcrash. rewrite Hcount, Hrec.
  apply read_loop_crash. exact Hcrash.
Qed.

Lemma client_crashes_only_on_zero_interval_witness :
  let res := listen_to_trades "ws://localhost:8765" 1 0 [JNum 1; JNum 2; JNum 3] in
  0 = 0 /\
  1 < message_count (snd res) /\
  exists earlier d, received (snd res) = earlier ++ [d] /\ has_status d = false.
Proof.
  intros res.
  apply (client_crashes_only_on_zero_interval "ws://localhost:8765" 1 0
           [JNum 1; JNum 2; JNum 3]).
  reflexivity.
Defined.

Lemma read_loop_window (n : Z) (pre : list json) :
  forall (c : client) (d : json) (post : list json),
    Forall (fun f => is_replay_finished f = false) pre ->
    message_count c + Z.of_nat (length pre) = n ->
    has_status d = false ->
    let res := read_loop n 0 (pre ++ d :: post) c in
    fst res = Crashed /\
    message_count (snd res) = n + 1 /\
    received (snd res) = received c ++ pre ++ [d].
Proof.
  induction pre as [| f pre IH]; intros c d post Hpre Hn Hd.
  - simpl in *. unfold on_message, on_trade. rewrite Hd.
    assert (Hgt : (message_count c + 1 <=? n) = false) by (apply Z.leb_gt; lia).
    rewrite Hgt. simpl. repeat split. lia.
  - inversion Hpre as [| f' pre' Hf Hrest]; subst f' pre'.
    change ((f :: pre) ++ d :: post) with (f :: (pre ++ d :: post)).
    cbn [read_loop]. rewrite length_cons in Hn.
    assert (Hv : snd (on_message n 0 (message_count c + 1) f) = Continue).
    { unfold on_message, on_trade. unfold is_replay_finished in Hf.
      destruct (has_status f); simpl in *.
      - rewrite Hf. reflexivity.
      - assert (Hle : (message_count c + 1 <=? n) = true) by (apply Z.leb_le; lia).
        rewrite Hle. reflexivity. }
    destruct (on_message n 0 (message_count c + 1) f) as [lines v].
    simpl in Hv. subst v.
    destruct (IH (mk_client (message_count c + 1) (received c ++ [f])
                    (client_log c ++ lines)) d post Hrest) as (H1 & H2 & H3);
      [simpl; lia | exact Hd |].
    split; [exact H1 |]. split; [exact H2 |].
    rewrite H3. simpl. rewrite <- app_assoc. reflexivity.
Qed.

(** X12.  Started with a summary interval of zero, the client reads the
    first [show_first_n] frames (as long as none is the end marker) and
    stops with [ZeroDivisionError] on the next frame that has no [status]
    member; the [finally] clause still logs the total, which counts that
    frame. *)
Theorem zero_interval_crashes_after_window
    (uri : string) (show_first_n : Z) (pre : list json) (d : json) (post : list json) :
  Forall (fun f => is_replay_finished f = false) pre ->
  Z.of_nat (length pre) = show_first_n ->
  has_status d = false ->
  let res := listen_to_trades uri show_first_n 0 (pre ++ d :: post) in
  fst res = Crashed /\
  received (snd res) = pre ++ [d] /\
  last (client_log (snd res)) (INFO, ConnectedTo uri)
  = (INFO, TotalTradesReceived (show_first_n + 1)).
Proof.
  intros Hpre Hlen Hd res.
  destruct (listen_exit uri show_first_n 0 (pre ++ d :: post)) as [Hexit _].
  destruct (listen_log uri show_first_n 0 (pre ++ d :: post)) as (_ & Hrec & Hlog).
  fold res in Hexit, Hrec, Hlog.
  destruct (read_loop_window show_first_n pre (mk_client 0 [] [(INFO, ConnectedTo uri)])
              d post Hpre) as (H1 & H2 & H3); [simpl; lia | exact Hd |].
  rewrite Hexit, Hrec, Hlog, H1, H2, H3. simpl.
  repeat split. apply last_last.
Qed.

Lemma zero_interval_crashes_after_window_witness :
  let res := listen_to_trades "ws://localhost:8765" 2 0
               ([status_message DATA_LOADED; JNum 1] ++ JNum 2 :: [JNum 3]) in
  fst res = Crashed /\
  received (snd res) = [status_message DATA_LOADED; JNum 1] ++ [JNum 2] /\
  last (client_log (snd res)) (INFO, ConnectedTo "ws://localhost:8765")
  = (INFO, TotalTradesReceived (2 + 1)).
Proof.
  apply (zero_interval_crashes_after_window "ws://localhost:8765" 2
           [status_message DATA_LOADED; JNum 1] (JNum 2) [JNum 3]);
    [repeat constructor | reflexivity | reflexivity].
Defined.

(** * The handler and a peer that goes away *)

Lemma after_0 (peer0 : option nat) : after peer0 0 = peer0.
Proof.
  destruct peer0 as [k |]; simpl; [rewrite Nat.sub_0_r |]; reflexivity.
Qed.

(** A step that sends nothing. *)
Lemma emits_silent {A : Type} (c : M A) (a : A) (s s' : session)
    (post : A -> session -> Prop) :
  c s = (Done a, s') ->
  sent s' = sent s -> peer s' = peer s -> post a s' ->
  emits [] post s (c s).
Proof.
  intros Hc Hs Hp Hpost. left. exists a. rewrite Hc. simpl.
  rewrite app_nil_r, after_0.
  repeat split; auto. destruct (peer s); simpl; [lia | exact I].
Qed.

Lemma emits_weaken {A : Type} (frames : list json) (post post' : A -> session -> Prop)
    (s : session) (res : outcome A * session) :
  (forall a s', post a s' -> post' a s') ->
  emits frames post s res -> emits frames post' s res.
Proof.
  intros Himp [(a & H1 & H2 & H3 & H4 & H5) | H]; [left | right; exact H].
  exists a. auto 6.
Qed.

(** Sequencing: the frames of the first computation, then those of the
    second. *)
Lemma emits_bind {A B : Type} (c : M A) (k : A -> M B)
    (frames1 frames2 : list json)
    (post1 : A -> session -> Prop) (post2 : B -> session -> Prop) (s : session) :
  emits frames1 post1 s (c s) ->
  (forall a s1, post1 a s1 -> emits frames2 post2 s1 (k a s1)) ->
  emits (frames1 ++ frames2) post2 s (bind c k s).
Proof.
  intros H1 H2. unfold bind.
  destruct (c s) as [r s1] eqn:Hc.
  destruct H1 as [(a & Hr & Hs & Hp & Ha & Hpost) | (Hr & n & Hp & Hn & Hs)];
    simpl in *; subst r.
  - specialize (H2 a s1 Hpost).
    destruct H2 as [(b & Hr2 & Hs2 & Hp2 & Ha2 & Hpost2) | (Hr2 & n & Hp2 & Hn2 & Hs2)].
    + left. exists b. rewrite length_app.
      split; [exact Hr2 |].
      split; [rewrite Hs2, Hs, app_assoc; reflexivity |].
      split; [rewrite Hp2, Hp; destruct (peer s); simpl; [f_equal; lia | reflexivity] |].
      split; [| exact Hpost2].
      rewrite Hp in Ha2. destruct (peer s); simpl in *; [lia | exact I].
    + right. split; [exact Hr2 |].
      rewrite Hp in Hp2. destruct (peer s) as [k0 |] eqn:Hpeer; simpl in *;
        [| discriminate].
      inversion Hp2; subst n. exists k0.
      split; [reflexivity |]. split; [rewrite length_app; lia |].
      rewrite Hs2, Hs, firstn_app, <- app_assoc.
      rewrite (firstn_all2 frames1) by lia. reflexivity.
  - right. split; [reflexivity |]. exists n.
    split; [exact Hp |]. split; [rewrite length_app; lia |].
    simpl. rewrite Hs, firstn_app.
    replace (n - length frames1)%nat with 0%nat by lia.
    simpl. rewrite app_nil_r. reflexivity.
Qed.

Lemma websocket_send_emits (m : json) (s : session) :
  emits [m] (fun _ s' => keeps_channel s s') s (websocket_send m s).
Proof.
  unfold websocket_send. destruct (peer s) as [[| k] |] eqn:Hpeer.
  - right. split; [reflexivity |]. exists 0%nat. simpl.
    rewrite app_nil_r. auto.
  - left. exists tt. simpl.
    pose proof (run_ready_view (transmit s m (Some k))) as Hv.
    apply view_fields in Hv. destruct Hv as (Hs & Hp & _).
    rewrite Hpeer. simpl. rewrite Nat.sub_0_r.
    repeat split; auto; try lia.
    intros backlog output Hch. apply run_ready_channel.
    eapply channel_ext; [| | exact Hch]; reflexivity.
  - left. exists tt. simpl.
    pose proof (run_ready_view (transmit s m None)) as Hv.
    apply view_fields in Hv. destruct Hv as (Hs & Hp & _).
    rewrite Hpeer. simpl.
    repeat split; auto.
    intros backlog output Hch. apply run_ready_channel.
    eapply channel_ext; [| | exact Hch]; reflexivity.
Qed.

Lemma keeps_channel_refl (s : session) : keeps_channel s s.
Proof.
  intros backlog output H. exact H.
Qed.

Lemma view_same (s s' : session) :
  handler_view s' = handler_view s -> sent s' = sent s /\ peer s' = peer s.
Proof.
  unfold handler_view. intros H. inversion H. auto.
Qed.

Lemma send_tasks_emits (messages : list json) :
  forall s : session,
    emits messages (fun _ s' => keeps_channel s s') s (send_tasks messages s).
Proof.
  induction messages as [| m rest IH]; intros s.
  - apply (emits_silent (send_tasks []) tt s s); auto using keeps_channel_refl.
  - change (m :: rest) with ([m] ++ rest). cbn [send_tasks].
    eapply emits_bind; [apply websocket_send_emits |].
    intros u s1 Hk. simpl in Hk.
    eapply emits_weaken; [| apply IH].
    intros u2 s2 Hk2. eapply keeps_channel_trans; eassumption.
Qed.

(** What is put on the wire from [s0] is put on the wire from a session
    with the same wire. *)
Lemma emits_from {A : Type} (frames : list json) (post : A -> session -> Prop)
    (s s0 : session) (res : outcome A * session) :
  sent s0 = sent s -> peer s0 = peer s ->
  emits frames post s0 res -> emits frames post s res.
Proof.
  unfold emits. intros -> ->. auto.
Qed.

Lemma gather_send_emits (messages : list json) (s : session) :
  emits messages (fun _ s' => keeps_channel s s') s (gather_send messages s).
Proof.
  destruct messages as [| m rest].
  - apply (send_tasks_emits [] s).
  - unfold gather_send.
    pose proof (run_ready_view s) as Hv. apply view_same in Hv.
    destruct Hv as [Hs Hp].
    eapply emits_from; [exact Hs | exact Hp |].
    eapply emits_weaken; [| apply send_tasks_emits].
    intros u s' Hk backlog output Hch. apply Hk, run_ready_channel, Hch.
Qed.

Lemma pace_group_emits (replay_start_time first_timestamp : Z) (item : tick)
    (s : session) :
  emits (tick_messages item) (fun _ s' => keeps_channel s s') s
    (pace_group replay_start_time first_timestamp item s).
Proof.
  destruct item as [[timestamp messages] num_trades].
  rewrite pace_group_split.
  destruct (pace_group_prefix replay_start_time first_timestamp timestamp s)
    as (s1 & E1 & V1 & C1).
  apply view_fields in V1. destruct V1 as (A1 & P1 & _).
  replace (tick_messages (timestamp, messages, num_trades)) with ([] ++ (messages ++ []))
    by (unfold tick_messages; simpl; apply app_nil_r).
  eapply emits_bind.
  - eapply (emits_silent _ _ s s1 (fun _ s' => keeps_channel s s'));
      [exact E1 | exact A1 | exact P1 | exact C1].
  - intros delay s2 K2. simpl in K2.
    eapply emits_bind.
    + apply gather_send_emits.
    + intros u s3 K3. simpl in K3.
      match goal with |- emits _ _ _ (logging ?l ?t s3) =>
        destruct (logging_spec l t s3) as (s4 & E4 & V4 & C4)
      end.
      apply view_fields in V4. destruct V4 as (A4 & P4 & _).
      eapply (emits_silent _ tt s3 s4); [exact E4 | exact A4 | exact P4 |].
      eapply keeps_channel_trans; [exact K2 |].
      eapply keeps_channel_trans; [exact K3 | exact C4].
Qed.

Lemma emits_frames {A : Type} (frames frames' : list json)
    (post : A -> session -> Prop) (s : session) (res : outcome A * session) :
  emits frames' post s res -> frames' = frames -> emits frames post s res.
Proof.
  intros H <-. exact H.
Qed.

Lemma logging_emits (lvl : level) (text : log_text) (s : session) :
  emits [] (fun _ s' => keeps_channel s s') s (logging lvl text s).
Proof.
  destruct (logging_spec lvl text s) as (s1 & E & V & C).
  apply view_fields in V. destruct V as (Hs & Hp & _).
  eapply emits_silent; eauto.
Qed.

Lemma loop_time_emits (s : session) :
  emits [] (fun _ s' => keeps_channel s s') s (loop_time s).
Proof.
  destruct (loop_time_spec s) as (s1 & E & V & C).
  apply view_fields in V. destruct V as (Hs & Hp & _).
  eapply emits_silent; eauto.
Qed.

Lemma report_latency_emits (s : session) :
  emits [] (fun _ s' => keeps_channel s s') s (report_latency s).
Proof.
  destruct (report_latency_spec s) as (text & s1 & E & V & C).
  apply view_fields in V. destruct V as (Hs & Hp & _).
  eapply emits_silent; eauto.
Qed.

Lemma create_producer_emits (max_queue_size : Z) (trades_df : DataFrame) (s : session) :
  emits [] (fun _ s' => channel s' (full_output trades_df) (full_output trades_df)) s
    (create_producer max_queue_size trades_df s).
Proof.
  destruct (create_producer_spec max_queue_size trades_df s) as (s1 & E & V & C).
  apply view_same in V. destruct V as (Hs & Hp).
  eapply emits_silent; eauto.
Qed.

Lemma queue_get_emits (s : session) (item : option tick)
    (backlog output : list (option tick)) :
  channel s (item :: backlog) output ->
  emits [] (fun x s' => x = item /\ channel s' backlog output) s (queue_get s).
Proof.
  intros H. destruct (queue_get_channel s item backlog output H) as (s1 & E & V & C).
  apply view_same in V. destruct V as (Hs & Hp).
  eapply emits_silent; eauto.
Qed.

Lemma pace_loop_emits (replay_start_time first_timestamp : Z)
    (output : list (option tick)) (ticks : list tick) :
  forall (fuel : nat) (s : session),
    (length ticks < fuel)%nat ->
    channel s (map Some ticks ++ [None]) output ->
    emits (concat (map tick_messages ticks)) (fun _ s' => channel s' [] output) s
      (pace_loop fuel replay_start_time first_timestamp s).
Proof.
  induction ticks as [| t ticks IH]; intros fuel s Hfuel Hch;
    (destruct fuel as [| fuel]; [simpl in Hfuel; lia |]);
    simpl in Hch; cbn [pace_loop].
  - eapply emits_frames; [| reflexivity].
    eapply (emits_bind _ _ [] []); [apply (queue_get_emits _ _ _ _ Hch) |].
    intros item s1 [-> Hch1].
    apply (emits_silent (ret tt) tt s1 s1); auto.
  - eapply emits_frames.
    + eapply (emits_bind _ _ []); [apply (queue_get_emits _ _ _ _ Hch) |].
      intros item s1 [-> Hch1].
      eapply emits_bind; [apply pace_group_emits |].
      intros u s2 K. simpl in K.
      apply IH; [simpl in Hfuel; lia | apply K; exact Hch1].
    + reflexivity.
Qed.

(** The [try] block puts the frames of the session on the wire, up to the
    point where the peer goes away; on a frame without usable timestamps it
    raises at once. *)
Lemma replay_body_emits (disk : string -> parquet) (trade_file : string)
    (max_queue_size : Z) (s : session) :
  match disk trade_file with
  | Unusable what =>
      replay_body disk trade_file max_queue_size s = (Raised (Failure what), s)
  | _ =>
      emits (expected_frames (disk trade_file) trade_file) (fun _ _ => True) s
        (replay_body disk trade_file max_queue_size s)
  end.
Proof.
  unfold replay_body, expected_frames.
  destruct (disk trade_file) as [| | what | df].
  - eapply emits_frames.
    + eapply (emits_bind _ _ []); [apply logging_emits |].
      intros u s1 _. eapply emits_weaken; [| apply websocket_send_emits]. auto.
    + reflexivity.
  - eapply emits_frames.
    + eapply (emits_bind _ _ []); [apply logging_emits |].
      intros u s1 _. eapply emits_weaken; [| apply websocket_send_emits]. auto.
    + reflexivity.
  - reflexivity.
  - cbv zeta.
    pose proof (groupby_length (sort_values py df)) as Hlen.
    assert (Hfull : full_output (sort_values py df)
                    = map (fun g => Some (tick_of_group g))
                        (groupby_timestamp (sort_values py df)) ++ [None])
      by reflexivity.
    destruct (groupby_timestamp (sort_values py df)) as [| g gs]; simpl in Hfull.
    + eapply emits_frames.
      * eapply (emits_bind _ _ []); [apply create_producer_emits |].
        intros u1 s1 C1. simpl in C1.
        eapply emits_bind; [apply websocket_send_emits |].
        intros u2 s2 K2. simpl in K2. apply K2 in C1. rewrite Hfull in C1 at 1.
        eapply (emits_bind _ _ []); [apply (queue_get_emits _ _ _ _ C1) |].
        intros item s3 [-> C3].
        eapply (emits_bind _ _ []); [apply logging_emits |].
        intros u4 s4 K4.
        eapply emits_weaken; [| apply websocket_send_emits]. auto.
      * reflexivity.
    + eapply emits_frames.
      * eapply (emits_bind _ _ []); [apply create_producer_emits |].
        intros u1 s1 C1. simpl in C1.
        eapply emits_bind; [apply websocket_send_emits |].
        intros u2 s2 K2. simpl in K2. apply K2 in C1. rewrite Hfull in C1 at 1.
        eapply (emits_bind _ _ []); [apply (queue_get_emits _ _ _ _ C1) |].
        intros item s3 [-> C3]. unfold tick_of_group at 1. cbv iota beta.
        eapply (emits_bind _ _ []); [apply loop_time_emits |].
        intros replay_start_time s4 K4. simpl in K4.
        eapply emits_bind; [apply gather_send_emits |].
        intros u5 s5 K5. simpl in K5.
        eapply (emits_bind _ _ []); [apply logging_emits |].
        intros u6 s6 K6. simpl in K6.
        eapply emits_bind.
        { apply (pace_loop_emits replay_start_time (fst g)
                   (full_output (sort_values py df)) (map tick_of_group gs)).
          - rewrite length_map. simpl in Hlen. lia.
          - rewrite map_map. apply K6, K5, K4. exact C3. }
        intros u7 s7 C7. simpl in C7.
        eapply (emits_bind _ _ []); [apply logging_emits |].
        intros u8 s8 K8.
        eapply emits_bind; [apply websocket_send_emits |].
        intros u9 s9 K9.
        eapply emits_weaken; [| apply report_latency_emits]. auto.
      * simpl. rewrite messages_of_ticks, <- app_assoc. reflexivity.
Qed.

Lemma finally_clause_wire (body : M unit) (s : session) :
  fst (finally_clause body s) = fst (body s) /\
  sent (snd (finally_clause body s)) = sent (snd (body s)).
Proof.
  unfold finally_clause. destruct (body s) as [r s1]. simpl.
  destruct (producer_task s1) as [p |]; [| auto].
  destruct (cancel p (queue s1)). auto.
Qed.

(** The frames of a computation that cannot fail but by the peer. *)
Lemma emits_delivered {A : Type} (frames : list json) (post : A -> session -> Prop)
    (s : session) (res : outcome A * session) :
  emits frames post s res ->
  (exists a, fst res = Done a) \/ fst res = Raised ConnectionClosed ->
  sent (snd res) = sent s ++ delivered (peer s) frames.
Proof.
  intros [(a & Hr & Hs & _ & Ha & _) | (Hr & k & Hp & Hk & Hs)] _.
  - rewrite Hs. f_equal. unfold delivered.
    destruct (peer s); [| reflexivity].
    simpl in Ha. symmetry. apply firstn_all2. exact Ha.
  - rewrite Hs, Hp. reflexivity.
Qed.

(** X13.  The handler always returns to the server that called it: it
    never raises and never waits for ever on its queue, whatever the
    file, the queue size and the moment the consumer goes away.  And a
    consumer that takes [k] frames before its connection is closed has
    been sent exactly the first [k] frames of the session, in order (all
    of them when the connection stays open): the status frame, the
    messages group by group, the final status frame; or the one error
    frame when the file cannot be read or its timestamps cannot be
    used. *)
Theorem replay_delivers_prefix (disk : string -> parquet) (trade_file : string)
    (max_queue_size : Z) (s : session) :
  let res := replay_trades disk trade_file max_queue_size s in
  fst res = Done tt /\
  sent (snd res)
  = sent s ++ delivered (peer s) (expected_frames (disk trade_file) trade_file).
Proof.
  intros res. unfold res, replay_trades, bind. simpl.
  set (s0 := mk_session (sent s) (peer s) (now s) (lapses s) (readings s) (sleeps s)
               (queue s) (producer_task s) (log s ++ [(INFO, ClientConnected)])
               (latencies s)).
  destruct (finally_clause_wire
              (except_clauses (replay_body disk trade_file max_queue_size)) s0)
    as [Hr Hs].
  rewrite Hr, Hs. clear Hr Hs. unfold except_clauses.
  pose proof (replay_body_emits disk trade_file max_queue_size s0) as Hem.
  assert (Hwire :
            forall r s1,
              emits (expected_frames (disk trade_file) trade_file)
                (fun (_ : unit) _ => True) s0 (r, s1) ->
              fst (match r with
                   | Raised ConnectionClosed => logging INFO ClientDisconnected s1
                   | _ => (r, s1)
                   end) = Done tt /\
              sent (snd (match r with
                         | Raised ConnectionClosed => logging INFO ClientDisconnected s1
                         | _ => (r, s1)
                         end))
              = sent s ++ delivered (peer s)
                            (expected_frames (disk trade_file) trade_file)).
  { intros r s1 H.
    pose proof (emits_delivered _ _ _ _ H) as Hd. simpl in Hd.
    destruct H as [(a & Hr & _) | (Hr & _)]; simpl in Hr; subst r.
    - destruct a. simpl. split; [reflexivity |]. apply Hd. left. eauto.
    - simpl. split; [reflexivity |]. apply Hd. right. reflexivity. }
  destruct (disk trade_file) as [| | what | df] eqn:Hdisk.
  - destruct (replay_body disk trade_file max_queue_size s0) as [r s1].
    destruct (Hwire r s1 Hem) as [H1 H2].
    destruct r as [[] | [| w] |]; simpl in *; try discriminate; auto.
  - destruct (replay_body disk trade_file max_queue_size s0) as [r s1].
    destruct (Hwire r s1 Hem) as [H1 H2].
    destruct r as [[] | [| w] |]; simpl in *; try discriminate; auto.
  - rewrite Hem. clear Hwire Hem.
    unfold expected_frames, load_error_text.
    set (frame := error_message ("An unexpected error occurred: " ++ what)).
    destruct (logging_spec ERROR (ErrorDuringReplay what) s0) as (s1 & E1 & V1 & _).
    apply view_fields in V1. destruct V1 as (A1 & P1 & _).
    unfold bind. rewrite E1.
    pose proof (websocket_send_emits frame s1) as Hsend.
    pose proof (emits_delivered _ _ _ _ Hsend) as Hd.
    rewrite A1, P1 in Hd. simpl in Hd.
    destruct Hsend as [(a & Hr & _) | (Hr & _)];
      destruct (websocket_send frame s1) as [r s2]; simpl in Hr; subst r.
    + destruct a. simpl. split; [reflexivity |]. apply Hd. left.
      exists tt. reflexivity.
    + simpl. split; [reflexivity |]. apply Hd. right. reflexivity.
  - destruct (replay_body disk trade_file max_queue_size s0) as [r s1].
    destruct (Hwire r s1 Hem) as [H1 H2].
    destruct r as [[] | [| w] |]; simpl in *; try discriminate; auto.
Qed.

(** * The end of a complete replay *)

Lemma markers_of_groups (groups : list (Z * list row)) :
  markers (map (fun g => Some (tick_of_group g)) groups) = 0%nat.
Proof.
  induction groups as [| g rest IH]; simpl; [reflexivity | exact IH].
Qed.

(** X15.  After a replay on a connection that stays open, the producer
    has returned, it has put every group of the dataset and exactly one
    marker on the queue, the queue is empty, the cancellation in the
    handler's [finally] clause has changed nothing, and the handler has
    recorded one latency sample for each group after the first. *)
Theorem complete_replay_end_state (disk : string -> parquet) (trade_file : string)
    (max_queue_size : Z) (df : DataFrame) (now0 : Z) (lapses0 : list Z) :
  disk trade_file = Table df ->
  let res :=
    replay_trades disk trade_file max_queue_size (connect None now0 lapses0) in
  let groups := groupby_timestamp (sort_values py df) in
  exists p,
    producer_task (snd res) = Some p /\
    pc p = Returned /\
    ticks_of (emitted p) = map tick_of_group groups /\
    markers (emitted p) = 1%nat /\
    items (queue (snd res)) = [] /\
    length (latencies (snd res)) = pred (length groups).
Proof.
  intros Hdisk res groups. unfold res, replay_trades.
  destruct (logging_spec INFO ClientConnected (connect None now0 lapses0))
    as (s0 & E0 & V0 & _).
  unfold bind. rewrite E0.
  destruct (view_fields _ _ _ _ _ _ _ _ _ V0) as (_ & P0 & _ & _ & _ & _ & _ & T0).
  simpl in P0, T0.
  destruct (replay_body_open disk trade_file max_queue_size df s0 Hdisk P0)
    as (s1 & E1 & _ & _ & T1 & C1 & _).
  unfold finally_clause, except_clauses. rewrite E1.
  destruct (channel_drained s1 _ C1) as (p & Hp & Hret & Hout & Hcancel).
  assert (Hq : items (queue s1) = []).
  { destruct C1 as (p1 & _ & _ & Hb & _). apply app_eq_nil in Hb. apply Hb. }
  rewrite Hp, Hcancel. simpl.
  exists p. split; [reflexivity |]. split; [exact Hret |].
  rewrite Hout. unfold full_output.
  split; [rewrite ticks_of_groups; simpl; apply app_nil_r |].
  split; [rewrite markers_app, markers_of_groups; reflexivity |].
  split; [exact Hq |].
  rewrite T1, T0. reflexivity.
Qed.

(** * A group that is late *)

Lemma Forall_tl {A : Type} (P : A -> Prop) (l : list A) : Forall P l -> Forall P (tl l).
Proof.
  intros H. destruct H; simpl; [constructor | assumption].
Qed.

Lemma Forall_hd (l : list Z) : Forall (fun x => 0 <= x) l -> 0 <= hd 0 l.
Proof.
  intros H. destruct H; simpl; [lia | assumption].
Qed.

(** X16.  For a group whose target time has passed when the clock is read
    ([delay <= 0]) the handler does not sleep, and on a clock that does not
    run backwards the latency it records is at least the lag [- delay]:
    zero or more, and strictly positive when [delay] is negative. *)
Theorem late_group_latency (replay_start_time first_timestamp timestamp : Z)
    (messages : list json) (num_trades : nat) (s : session) :
  Forall (fun lapse => 0 <= lapse) (lapses s) ->
  let target_send_time :=
    fadd py replay_start_time (total_seconds py (timestamp - first_timestamp)) in
  let delay := fsub py target_send_time (now s + hd 0 (lapses s)) in
  delay <= 0 ->
  let s' :=
    snd (pace_group replay_start_time first_timestamp
           (timestamp, messages, num_trades) s) in
  sleeps s' = sleeps s /\
  exists latency,
    latencies s' = latencies s ++ [latency] /\
    - delay <= latency /\
    (delay < 0 -> 0 < latency).
Proof.
  intros Hl target_send_time delay Hlate s'.
  destruct (pace_group_run replay_start_time first_timestamp timestamp messages
              num_trades s) as (_ & Hs & Ht & _).
  fold target_send_time delay s' in Hs, Ht.
  pose proof (Forall_hd _ (Forall_tl _ _ Hl)) as Hh.
  assert (Hd : (0 <? delay) = false) by (apply Z.ltb_ge; exact Hlate).
  rewrite Hd in Hs. rewrite app_nil_r in Hs.
  split; [exact Hs |].
  eexists. split; [exact Ht |].
  assert (Hmono : fsub py (now s + hd 0 (lapses s)) target_send_time
                  <= fsub py (now s + hd 0 (lapses s) + hd 0 (tl (lapses s)))
                       target_send_time)
    by (apply fsub_monotone; lia).
  rewrite (fsub_opp py target_send_time (now s + hd 0 (lapses s))) in Hmono.
  fold delay in Hmono. split; lia.
Qed.

(** * A cancellation that finds room *)

(** X17.  On a bounded queue, when the consumer has just taken an item
    and the producer, still in its loop, is then cancelled, the marker
    goes on the queue at once: the task returns, having put no further
    group and exactly one marker. *)
Theorem cancel_with_room_puts_marker
    (trades_df : DataFrame) (max_queue_size : Z) (before : list event)
    (pending : list (Z * list row)) :
  0 < max_queue_size ->
  let st := run before (spawn trades_df max_queue_size) in
  pc (fst st) = PuttingGroup pending ->
  let st' := run (before ++ [Get; Cancel]) (spawn trades_df max_queue_size) in
  pc (fst st') = Returned /\
  emitted (fst st') = emitted (fst st) ++ [None] /\
  markers (emitted (fst st')) = 1%nat.
Proof.
  intros Hmax st Hpc st'.
  pose proof (run_bound before (spawn trades_df max_queue_size)) as Hb.
  simpl in Hb. specialize (Hb ltac:(unfold qsize; simpl; lia) Hmax).
  pose proof (run_maxsize before (spawn trades_df max_queue_size)) as Hm.
  pose proof (producer_markers trades_df max_queue_size before) as Hmk.
  simpl in Hm, Hmk. fold st in Hb, Hm, Hmk. rewrite Hpc in Hmk. simpl in Hmk.
  unfold st', run. rewrite fold_left_app. fold (run before (spawn trades_df max_queue_size)).
  fold st. destruct st as [p q]. simpl in *.
  unfold cancel. rewrite Hpc. unfold produce_finally.
  assert (Hroom : full (mk_queue (maxsize q) (tl (items q))) = false).
  { unfold full, qsize in *. simpl.
    destruct (maxsize q <=? 0) eqn:H0; [reflexivity |].
    apply Z.leb_gt. destruct (items q); simpl in *; lia. }
  rewrite Hroom. simpl.
  repeat split. rewrite markers_app, Hmk. reflexivity.
Qed.

Lemma cancel_with_room_puts_marker_witness :
  let df := [mk_row (Some 10) (JStr "A"); mk_row (Some 12) (JStr "C");
             mk_row (Some 15) (JStr "D")] in
  let st := run [Resume] (spawn df 1) in
  let st' := run ([Resume] ++ [Get; Cancel]) (spawn df 1) in
  pc (fst st') = Returned /\
  emitted (fst st') = emitted (fst st) ++ [None] /\
  markers (emitted (fst st')) = 1%nat.
Proof.
  intros df st st'.
  apply (cancel_with_room_puts_marker df 1 [Resume]
           (tl (groupby_timestamp df))); [lia | reflexivity].
Defined.

(** * The producer's last log line *)

Lemma produce_finally_logged (p : producer) (q : Queue) :
  ~ In (INFO, ProducerFinished) (producer_log p) ->
  finished_logged (fst (produce_finally p q)).
Proof.
  intros H. unfold produce_finally, finished_logged.
  destruct (full q); simpl.
  - right. split; [discriminate | exact H].
  - left. split; [reflexivity |]. apply in_app_iff. right. left. reflexivity.
Qed.

Lemma produce_loop_logged (groups : list (Z * list row)) :
  forall p q,
    ~ In (INFO, ProducerFinished) (producer_log p) ->
    finished_logged (fst (produce_loop groups p q)).
Proof.
  induction groups as [| g rest IH]; simpl; intros p q H.
  - apply produce_finally_logged. exact H.
  - destruct (full q); simpl.
    + right. simpl. split; [discriminate | exact H].
    + apply IH. exact H.
Qed.

Lemma step_logged (e : event) (st : producer * Queue) :
  finished_logged (fst st) -> finished_logged (fst (step e st)).
Proof.
  destruct st as [p q]. simpl. intros H.
  assert (Hnot : pc p <> Returned -> ~ In (INFO, ProducerFinished) (producer_log p)).
  { intros Hne. destruct H as [[Hr _] | [_ Hn]]; [contradiction | exact Hn]. }
  destruct e; simpl.
  - unfold resume. destruct (pc p) eqn:Hpc; try exact H.
    + apply produce_loop_logged. simpl. intros Hin.
      apply in_app_iff in Hin. destruct Hin as [Hin | [Hin | []]]; [| discriminate].
      revert Hin. apply Hnot. discriminate.
    + apply produce_loop_logged. apply Hnot. discriminate.
    + apply produce_finally_logged. apply Hnot. discriminate.
  - exact H.
  - unfold cancel. destruct (pc p) eqn:Hpc; try exact H.
    + right. simpl. split; [discriminate | apply Hnot; discriminate].
    + apply produce_finally_logged. simpl. intros Hin.
      apply in_app_iff in Hin. destruct Hin as [Hin | [Hin | []]]; [| discriminate].
      revert Hin. apply Hnot. discriminate.
    + right. simpl. split; [discriminate | apply Hnot; discriminate].
Qed.

Lemma run_logged (events : list event) :
  forall st, finished_logged (fst st) -> finished_logged (fst (run events st)).
Proof.
  induction events as [| e rest IH]; intros st Hst; simpl; [exact Hst |].
  apply IH, step_logged, Hst.
Qed.

(** X18.  The producer logs "Finished processing trades" exactly when it
    has put the marker on the queue and returned: a producer that was
    cancelled before the marker went on, or that still waits to put it,
    has not logged that line. *)
Theorem finished_logged_with_marker
    (trades_df : DataFrame) (max_queue_size : Z) (events : list event) :
  let p := fst (run events (spawn trades_df max_queue_size)) in
  In (INFO, ProducerFinished) (producer_log p)
  <-> (pc p = Returned /\ markers (emitted p) = 1%nat).
Proof.
  intros p.
  pose proof (producer_markers trades_df max_queue_size events) as Hmk.
  simpl in Hmk. fold p in Hmk.
  assert (H : finished_logged p).
  { unfold p. apply run_logged. right. simpl. split; [discriminate | auto]. }
  destruct H as [[Hr Hin] | [Hne Hnin]].
  - split; [| intros _; exact Hin]. intros _. split; [exact Hr |].
    rewrite Hmk, Hr. reflexivity.
  - split; [contradiction |]. intros [Hr _]. contradiction.
Qed.

(** * Every record, once, in order *)

Lemma sorted_app (l1 l2 : list row) :
  StronglySorted by_timestamp l1 -> StronglySorted by_timestamp l2 ->
  (forall a b, In a l1 -> In b l2 -> by_timestamp a b) ->
  StronglySorted by_timestamp (l1 ++ l2).
Proof.
  induction l1 as [| a l1 IH]; simpl; intros H1 H2 H12; [exact H2 |].
  inversion H1 as [| a' l1' Hs Hall]; subst.
  constructor.
  - apply IH; auto.
  - apply Forall_app. split; [exact Hall |].
    apply Forall_forall. intros b Hb. apply H12; auto.
Qed.

Lemma group_rows_sorted (groups : list (Z * list row)) :
  StronglySorted Z.lt (keys groups) ->
  Forall same_timestamp groups ->
  StronglySorted by_timestamp (rows_of groups).
Proof.
  unfold rows_of.
  induction groups as [| g gs IH]; simpl; intros Hk Hs.
  - constructor.
  - inversion Hk as [| k ks Hks Hall]; subst.
    inversion Hs as [| g' gs' Hg Hgs]; subst.
    specialize (IH Hks Hgs).
    unfold same_timestamp in Hg. rewrite Forall_forall in Hg.
    assert (Hlater : forall b, In b (concat (map snd gs)) ->
                               exists y, timestamp b = Some y /\ fst g < y).
    { intros b Hb. apply in_rows_of in Hb. destruct Hb as (g2 & Hg2 & Hb).
      rewrite Forall_forall in Hgs. specialize (Hgs g2 Hg2).
      unfold same_timestamp in Hgs. rewrite Forall_forall in Hgs.
      exists (fst g2). split; [exact (Hgs b Hb) |].
      rewrite Forall_forall in Hall. apply Hall.
      unfold keys. apply in_map. exact Hg2. }
    apply sorted_app; [| exact IH |].
    + assert (Hsame : forall l, (forall r, In r l -> timestamp r = Some (fst g)) ->
                                StronglySorted by_timestamp l).
      { induction l as [| r l IHl]; intros Hl; constructor.
        - apply IHl. intros r' Hr'. apply Hl. right. exact Hr'.
        - apply Forall_forall. intros r' Hr'. exists (fst g), (fst g).
          split; [exact (Hl r (or_introl eq_refl)) |].
          split; [exact (Hl r' (or_intror Hr')) | lia]. }
      apply Hsame. exact Hg.
    + intros a b Ha Hb. destruct (Hlater b Hb) as (y & Hy & Hlt).
      exists (fst g), y. split; [exact (Hg a Ha) |]. split; [exact Hy | lia].
Qed.

Lemma filter_perm {A : Type} (keep : A -> bool) (l l' : list A) :
  Permutation l l' -> Permutation (filter keep l) (filter keep l').
Proof.
  induction 1 as [| x l l' _ IH | x y l | l l' l'' _ IH1 _ IH2]; simpl.
  - constructor.
  - destruct (keep x); [constructor |]; exact IH.
  - destruct (keep x), (keep y); try reflexivity. apply perm_swap.
  - etransitivity; eassumption.
Qed.

(** X19.  A replay on a connection that stays open sends every record of
    the file that has a timestamp exactly once, in the order of the
    timestamps, and sends no record without one: between the two status
    frames the wire carries the documents of a rearrangement of those rows
    of the file that have a timestamp, and their timestamps do not
    decrease. *)
Theorem every_record_sent_once_in_order (disk : string -> parquet)
    (trade_file : string) (max_queue_size : Z) (df : DataFrame)
    (now0 : Z) (lapses0 : list Z) :
  disk trade_file = Table df ->
  let res :=
    replay_trades disk trade_file max_queue_size (connect None now0 lapses0) in
  exists rows,
    Permutation rows (filter has_timestamp df) /\
    StronglySorted by_timestamp rows /\
    sent (snd res)
    = [status_message DATA_LOADED] ++ map document rows
      ++ [status_message REPLAY_FINISHED].
Proof.
  intros Hdisk res.
  destruct (replay_trades_open disk trade_file max_queue_size df
              (connect None now0 lapses0) Hdisk eq_refl) as (_ & Hsent & _).
  fold res in Hsent. simpl in Hsent.
  exists (rows_of (groupby_timestamp (sort_values py df))).
  split; [rewrite groupby_partition; apply filter_perm, sort_values_perm |].
  split.
  - apply group_rows_sorted;
      [apply groupby_keys_increasing | apply groupby_same_timestamp].
  - rewrite Hsent. unfold rows_of. rewrite concat_map, map_map. reflexivity.
Qed.

End Platform.

(** * Sessions worked out *)

(** The statements above hold on every platform.  Here they are applied
    on [exact_platform], together with the sessions on which a claim of
    the specification fails. *)



(** C4, as written, fails when the delay is exactly zero: the group that
    is due at the very moment the clock is read is logged at info level as
    waited for, not as lagging. *)
Lemma zero_delay_is_not_a_lag_warning :
  let s := connect None 100 [2; 0] in
  let res := pace_group exact_platform 100 10 (12, [JStr "C"], 1%nat) s in
  100 + (12 - 10) - (now s + hd 0 (lapses s)) <= 0 /\
  fst res = Done tt /\
  log (snd res) = [(INFO, SentAfterWait 1 12 0)].
Proof.
  repeat split. discriminate.
Qed.

Lemma pace_group_log_level_witness :
  let s := connect None 100 [5; 0] in
  let res := pace_group exact_platform 100 10 (12, [JStr "C"], 1%nat) s in
  exists line,
    log (snd res) = log s ++ [line] /\
    (fst line = WARNING <-> -3 < 0) /\
    (-3 < 0 -> line = (WARNING, SentLagging 1 12 (- -3))) /\
    (0 <= -3 -> line = (INFO, SentAfterWait 1 12 (-3))).
Proof.
  intros s res.
  apply (proj1 (pace_group_log_level exact_platform 100 10 12 [JStr "C"] 1%nat s)).
  reflexivity.
Defined.

(** The handler itself cancels a producer that has no room for its
    marker: three groups, a queue of capacity one, and a consumer that
    goes away after the first record.  The [finally] clause cancels the
    producer while it waits on [queue.put(None)]; the task ends without a
    marker. *)
Lemma disconnect_cancels_without_marker :
  let a := mk_row (Some 10) (JStr "A") in
  let c := mk_row (Some 12) (JStr "C") in
  let d := mk_row (Some 15) (JStr "D") in
  let res := replay_trades exact_platform (fun _ => Table [a; c; d]) "trades.parquet" 1
               (connect (Some 2%nat) 100 []) in
  fst res = Done tt /\
  exists p,
    producer_task (snd res) = Some p /\
    pc p = Cancelled /\
    markers (emitted p) = 0%nat.
Proof.
  intros a c d res. vm_compute.
  split; [reflexivity |].
  eexists. split; [reflexivity |]. split; reflexivity.
Qed.

Lemma groups_sent_in_record_order_witness :
  let a := mk_row (Some 10) (JStr "A") in
  let b := mk_row (Some 10) (JStr "B") in
  let c := mk_row (Some 12) (JStr "C") in
  let res := replay_trades exact_platform (fun _ => Table [c; a; b]) "trades.parquet" 1
               (connect None 100 [1; 1; 1]) in
  fst res = Done tt /\
  sent (snd res)
  = [status_message DATA_LOADED; JStr "A"; JStr "B"; JStr "C";
     status_message REPLAY_FINISHED].
Proof.
  intros a b c res.
  apply (groups_sent_in_record_order exact_platform (fun _ => Table [c; a; b])
           "trades.parquet" 1 [c; a; b] 100 [1; 1; 1] eq_refl).
Defined.

Lemma empty_dataset_messages_witness :
  let res := replay_trades exact_platform (fun _ => Table []) "trades.parquet" 100
               (connect (Some 2%nat) 0 []) in
  fst res = Done tt /\
  sent (snd res) = [status_message DATA_LOADED; status_message REPLAY_FINISHED].
Proof.
  apply (empty_dataset_messages exact_platform (fun _ => Table []) "trades.parquet" 100
           (Some 2%nat) 0 [] eq_refl).
  simpl. lia.
Defined.

Lemma unreadable_dataset_reports_error_witness :
  let res := replay_trades exact_platform (fun _ => FileNotFound)
               "trades_sample.parquet" 100 (connect None 0 []) in
  fst res = Done tt /\
  producer_task (snd res) = None /\
  (accepts 1 None ->
   sent (snd res)
   = [error_message (load_error_text FileNotFound "trades_sample.parquet")]) /\
  (@None nat = Some O -> sent (snd res) = []).
Proof.
  apply (unreadable_dataset_reports_error exact_platform (fun _ => FileNotFound)
           "trades_sample.parquet" 100 None 0 []).
  left. reflexivity.
Defined.

Lemma complete_replay_end_state_witness :
  let df := [mk_row (Some 12) (JStr "C"); mk_row (Some 10) (JStr "A");
             mk_row (Some 10) (JStr "B")] in
  let res := replay_trades exact_platform (fun _ => Table df) "trades.parquet" 1
               (connect None 100 [1; 1; 1]) in
  exists p,
    producer_task (snd res) = Some p /\
    pc p = Returned /\
    ticks_of (emitted p)
    = map tick_of_group (groupby_timestamp (sort_values exact_platform df)) /\
    markers (emitted p) = 1%nat /\
    items (queue (snd res)) = [] /\
    length (latencies (snd res))
    = pred (length (groupby_timestamp (sort_values exact_platform df))).
Proof.
  intros df res.
  apply (complete_replay_end_state exact_platform (fun _ => Table df) "trades.parquet"
           1 df 100 [1; 1; 1] eq_refl).
Defined.

Lemma late_group_latency_witness :
  let s := connect None 100 [5; 1] in
  let s' := snd (pace_group exact_platform 100 10 (12, [JStr "C"], 1%nat) s) in
  sleeps s' = sleeps s /\
  exists latency,
    latencies s' = latencies s ++ [latency] /\
    - (-3) <= latency /\
    (-3 < 0 -> 0 < latency).
Proof.
  intros s s'.
  apply (late_group_latency exact_platform 100 10 12 [JStr "C"] 1%nat s);
    [repeat constructor; discriminate | discriminate].
Defined.

Lemma every_record_sent_once_in_order_witness :
  let df := [mk_row (Some 12) (JStr "C"); mk_row None (JStr "N");
             mk_row (Some 10) (JStr "A"); mk_row (Some 10) (JStr "B")] in
  let res := replay_trades exact_platform (fun _ => Table df) "trades.parquet" 1
               (connect None 100 [1; 1; 1]) in
  exists rows,
    Permutation rows (filter has_timestamp df) /\
    StronglySorted by_timestamp rows /\
    sent (snd res)
    = [status_message DATA_LOADED] ++ map document rows
      ++ [status_message REPLAY_FINISHED].
Proof.
  intros df res.
  apply (every_record_sent_once_in_order exact_platform (fun _ => Table df)
           "trades.parquet" 1 df 100 [1; 1; 1] eq_refl).
Defined.
